(** * gomodifytype: selection and rewriting of struct field types

    A shallow embedding of [main.go].  The program parses one Go file,
    turns a locator (a line range, a struct name with an optional field
    name, or "all") into a span of lines, and replaces the type of every
    struct field in the span whose type is spelled [from] by the
    identifier [to].

    The packages of the Go library the program calls ([go/token],
    [go/ast], [go/types], [strconv], [strings], [unicode]) are modelled
    in modules of the same names, on the part of them the program uses. *)

From Stdlib Require Import ZArith String Ascii List Bool Lia Permutation.
From stdpp Require Import base option list gmap.

Import ListNotations.
#[local] Set Warnings "-register-all".
Local Open Scope string_scope.
Local Open Scope list_scope.
Local Open Scope Z_scope.

(** ** go/token: positions and the line table *)

Module token.

(** [token.Pos] is an [int]: the file's base plus a byte offset. *)
Definition Pos := Z.
Definition NoPos : Pos := 0.

Definition IsValid (p : Pos) : bool := negb (p =? NoPos).

(** [token.File]: [lines] holds the offset of the first byte of every
    line, in increasing order.  Line directives are not modelled. *)
Record File := mkFile { base : Z; size : Z; lines : list Z }.

Definition FileSet := list File.

(** [FileSet.file]: the file whose range [base, base+size] holds [p]. *)
Definition file (s : FileSet) (p : Pos) : option File :=
  List.find (fun f => (base f <=? p) && (p <=? base f + size f)) s.

(** [searchInts a x]: the largest [i] with [a[i] <= x], [-1] if there
    is none; [a] is increasing. *)
Fixpoint searchInts (a : list Z) (x : Z) : Z :=
  match a with
  | [] => -1
  | y :: a' => if y <=? x then 1 + searchInts a' x else -1
  end.

(** [File.unpack]: line [i+1] when the search finds [i], else 0. *)
Definition unpackLine (f : File) (offset : Z) : Z :=
  let i := searchInts (lines f) offset in
  if 0 <=? i then i + 1 else 0.

(** [s.Position(p).Line]; the zero [Position] has line 0. *)
Definition PositionLine (s : FileSet) (p : Pos) : Z :=
  if p =? NoPos then 0
  else match file s p with
       | Some f => unpackLine f (p - base f)
       | None => 0
       end.

(** [FileSet.File]: the file that holds [p], [nil] for [NoPos]. *)
Definition FileOf (s : FileSet) (p : Pos) : option File :=
  if p =? NoPos then None else file s p.

Definition LineCount (f : File) : Z := Z.of_nat (length (lines f)).

End token.

(** ** go/ast: the syntax tree *)

Module ast.

Record Ident := mkIdent { NamePos : token.Pos; Name : string }.

Record BasicLit := mkBasicLit { ValuePos : token.Pos; Value : string }.

(** [ast.NewIdent]: an identifier without a position. *)
Definition NewIdent (name : string) : Ident :=
  {| NamePos := token.NoPos; Name := name |}.

(** Type expressions, as far as field types go: names, qualified
    names, pointers, arrays and slices, maps and struct types.  A
    struct type carries its [*FieldList] inline: the position of the
    opening brace, the fields, the position of the closing brace. *)
Inductive Expr : Type :=
| IdentExpr (x : Ident)
| BasicLitExpr (x : BasicLit)
| StarExpr (Star : token.Pos) (X : Expr)
| ArrayType (Lbrack : token.Pos) (Len : option Expr) (Elt : Expr)
| SelectorExpr (X : Expr) (Sel : Ident)
| MapType (Map : token.Pos) (Key : Expr) (Value : Expr)
| StructType (Struct : token.Pos) (Opening : token.Pos)
             (List : list Field) (Closing : token.Pos)
with Field : Type :=
| mkField (Names : list Ident) (Type_ : Expr) (Tag : option BasicLit).

Definition Field_Names (f : Field) : list Ident := let (n, _, _) := f in n.
Definition Field_Type (f : Field) : Expr := let (_, t, _) := f in t.
Definition Field_Tag (f : Field) : option BasicLit := let (_, _, t) := f in t.

Record FieldList := mkFieldList
  { Opening : token.Pos; List : list Field; Closing : token.Pos }.

(** What a [*ast.StructType] points to. *)
Record StructTypeNode := mkStructType
  { Struct : token.Pos; Fields : FieldList }.

Definition StructExpr (x : StructTypeNode) : Expr :=
  StructType (Struct x) (Opening (Fields x)) (List (Fields x))
             (Closing (Fields x)).

(** Values: composite literals, and type expressions standing as
    operands (names and literals). *)
Inductive ValueExpr : Type :=
| CompositeLit (Type_ : option Expr) (Lbrace : token.Pos)
               (Elts : list ValueExpr) (Rbrace : token.Pos)
| Operand (X : Expr).

(** A [ValueSpec] of the parser always has a name; [Names[0]] is kept
    apart from the names after it. *)
Inductive Spec : Type :=
| TypeSpec (Name : Ident) (Type_ : option Expr)
| ValueSpec (Name0 : Ident) (NamesTail : list Ident)
            (Type_ : option Expr) (Values : list ValueExpr).

Inductive Stmt : Type :=
| DeclStmt (Specs : list Spec)
| ExprStmt (X : ValueExpr)
| AssignStmt (Lhs : list ValueExpr) (Rhs : list ValueExpr)
| ReturnStmt (Results : list ValueExpr).

Inductive Decl : Type :=
| GenDecl (Specs : list Spec)
| FuncDecl (Recv : option FieldList) (Name : Ident)
           (Params : FieldList) (Results : option FieldList)
           (Body : option (list Stmt)).

Record File := mkFile
  { Package : token.Pos; FileName : Ident; Decls : list Decl }.

(** *** Pos and End *)

Definition Ident_End (x : Ident) : token.Pos :=
  NamePos x + Z.of_nat (String.length (Name x)).

Definition BasicLit_End (x : BasicLit) : token.Pos :=
  ValuePos x + Z.of_nat (String.length (Value x)).

Fixpoint Expr_Pos (e : Expr) : token.Pos :=
  match e with
  | IdentExpr x => NamePos x
  | BasicLitExpr x => ValuePos x
  | StarExpr star _ => star
  | ArrayType lbrack _ _ => lbrack
  | SelectorExpr x _ => Expr_Pos x
  | MapType map _ _ => map
  | StructType struct _ _ _ => struct
  end.

Definition Field_Pos (f : Field) : token.Pos :=
  match Field_Names f with
  | n :: _ => NamePos n
  | [] => Expr_Pos (Field_Type f)
  end.

Fixpoint Expr_End (e : Expr) : token.Pos :=
  match e with
  | IdentExpr x => Ident_End x
  | BasicLitExpr x => BasicLit_End x
  | StarExpr _ x => Expr_End x
  | ArrayType _ _ elt => Expr_End elt
  | SelectorExpr _ sel => Ident_End sel
  | MapType _ _ value => Expr_End value
  | StructType _ _ list closing =>
      (* FieldList.End *)
      if token.IsValid closing then closing + 1
      else match last (map Field_End list) with
           | Some p => p
           | None => token.NoPos
           end
  end
with Field_End (f : Field) : token.Pos :=
  match f with
  | mkField _ type tag =>
      match tag with
      | Some t => BasicLit_End t
      | None => Expr_End type
      end
  end.

Definition FieldList_End (l : FieldList) : token.Pos :=
  if token.IsValid (Closing l) then Closing l + 1
  else match last (map Field_End (List l)) with
       | Some p => p
       | None => token.NoPos
       end.

Definition StructType_Pos (x : StructTypeNode) : token.Pos := Struct x.
Definition StructType_End (x : StructTypeNode) : token.Pos :=
  FieldList_End (Fields x).

(** Induction over type expressions that reaches the fields of a
    struct type and the length of an array type. *)
Section Induction.
Variable P : Expr -> Prop.
Hypothesis HIdent : forall x, P (IdentExpr x).
Hypothesis HBasicLit : forall x, P (BasicLitExpr x).
Hypothesis HStar : forall star x, P x -> P (StarExpr star x).
Hypothesis HArray : forall lbrack len elt,
    match len with Some l => P l | None => True end -> P elt ->
    P (ArrayType lbrack len elt).
Hypothesis HSelector : forall x sel, P x -> P (SelectorExpr x sel).
Hypothesis HMap : forall map key value,
    P key -> P value -> P (MapType map key value).
Hypothesis HStruct : forall struct opening list closing,
    Forall (fun f => P (Field_Type f)) list ->
    P (StructType struct opening list closing).

Fixpoint Expr_induction (e : Expr) : P e :=
  match e with
  | IdentExpr x => HIdent x
  | BasicLitExpr x => HBasicLit x
  | StarExpr star x => HStar star x (Expr_induction x)
  | ArrayType lbrack len elt =>
      HArray lbrack len elt
        (match len as o
               return match o with Some l => P l | None => True end
         with
         | Some l => Expr_induction l
         | None => I
         end)
        (Expr_induction elt)
  | SelectorExpr x sel => HSelector x sel (Expr_induction x)
  | MapType map key value =>
      HMap map key value (Expr_induction key) (Expr_induction value)
  | StructType struct opening list closing =>
      HStruct struct opening list closing
        ((fix fields (l : Datatypes.list Field)
            : Forall (fun f => P (Field_Type f)) l :=
            match l with
            | [] => @List.Forall_nil _ _
            | mkField n t g :: l' =>
                @List.Forall_cons _ (fun f => P (Field_Type f)) (mkField n t g) l'
                  (Expr_induction t) (fields l')
            end) list)
  end.
End Induction.

(** Induction over values that reaches the elements of a literal. *)
Section ValueInduction.
Variable P : ValueExpr -> Prop.
Hypothesis HCompositeLit : forall type lbrace elts rbrace,
    Forall P elts -> P (CompositeLit type lbrace elts rbrace).
Hypothesis HOperand : forall x, P (Operand x).

Fixpoint ValueExpr_induction (v : ValueExpr) : P v :=
  match v with
  | CompositeLit type lbrace elts rbrace =>
      HCompositeLit type lbrace elts rbrace
        ((fix values (l : Datatypes.list ValueExpr) : Forall P l :=
            match l with
            | [] => @List.Forall_nil _ _
            | v' :: l' =>
                @List.Forall_cons _ P v' l' (ValueExpr_induction v') (values l')
            end) elts)
  | Operand x => HOperand x
  end.
End ValueInduction.

End ast.

(** ** go/types: the spelling of a type expression *)

Module types.
Import ast.

(** [writeFieldList] writes the separator before every field but
    the first, and ", " before every name but the first: the pieces
    joined by the separator. *)
Definition writeNames (names : list Ident) : string :=
  String.concat ", " (map Name names).

(** [WriteExpr], with the buffer it appends to as the string built.
    A struct type lists its fields separated by "; ": the names, a
    blank when there are names, the type; tags are left out. *)
Fixpoint WriteExpr (x : Expr) : string :=
  match x with
  | IdentExpr x => Name x
  | BasicLitExpr x => Value x
  | StarExpr _ x => ("*" ++ WriteExpr x)%string
  | ArrayType _ len elt =>
      ("[" ++ match len with Some l => WriteExpr l | None => "" end
           ++ "]" ++ WriteExpr elt)%string
  | SelectorExpr x sel => (WriteExpr x ++ "." ++ Name sel)%string
  | MapType _ key value =>
      ("map[" ++ WriteExpr key ++ "]" ++ WriteExpr value)%string
  | StructType _ _ list _ =>
      ("struct{" ++
       String.concat "; "
         (map (fun f =>
                 writeNames (Field_Names f)
                   ++ match Field_Names f with [] => "" | _ => " " end
                   ++ WriteExpr (Field_Type f)) list)
       ++ "}")%string
  end.

Definition ExprString (x : Expr) : string := WriteExpr x.

End types.

(** ** unicode and the decoding of the first rune of a string *)

Module unicode.

Definition byte (c : ascii) : Z := Z.of_N (N_of_ascii c).

Definition RuneError : Z := 65533.
Definition MaxLatin1 : Z := 255.

Definition cont (lo hi : Z) (c : ascii) : bool :=
  (lo <=? byte c) && (byte c <=? hi).

Definition low6 (c : ascii) : Z := Z.land (byte c) 63.

(** The rune a [range] loop yields first: the UTF-8 sequence at the
    head of the string, or [RuneError] when it is not well formed.
    [None] on the empty string, where the loop body does not run. *)
Definition firstRune (s : string) : option Z :=
  match s with
  | EmptyString => None
  | String c0 rest =>
      let b0 := byte c0 in
      if b0 <? 128 then Some b0
      else if (194 <=? b0) && (b0 <=? 223) then
        match rest with
        | String c1 _ =>
            if cont 128 191 c1
            then Some (Z.lor (Z.shiftl (Z.land b0 31) 6) (low6 c1))
            else Some RuneError
        | _ => Some RuneError
        end
      else if (224 <=? b0) && (b0 <=? 239) then
        let lo := if b0 =? 224 then 160 else 128 in
        let hi := if b0 =? 237 then 159 else 191 in
        match rest with
        | String c1 (String c2 _) =>
            if cont lo hi c1 && cont 128 191 c2
            then Some (Z.lor (Z.shiftl (Z.land b0 15) 12)
                        (Z.lor (Z.shiftl (low6 c1) 6) (low6 c2)))
            else Some RuneError
        | _ => Some RuneError
        end
      else if (240 <=? b0) && (b0 <=? 244) then
        let lo := if b0 =? 240 then 144 else 128 in
        let hi := if b0 =? 244 then 143 else 191 in
        match rest with
        | String c1 (String c2 (String c3 _)) =>
            if cont lo hi c1 && cont 128 191 c2 && cont 128 191 c3
            then Some (Z.lor (Z.shiftl (Z.land b0 7) 18)
                        (Z.lor (Z.shiftl (low6 c1) 12)
                           (Z.lor (Z.shiftl (low6 c2) 6) (low6 c3))))
            else Some RuneError
        | _ => Some RuneError
        end
      else Some RuneError
  end.

(** The upper-case letters of Latin-1 in the [properties] table:
    A-Z, U+00C0-U+00D6 and U+00D8-U+00DE. *)
Definition latin1Upper (r : Z) : bool :=
  ((65 <=? r) && (r <=? 90))
  || ((192 <=? r) && (r <=? 214))
  || ((216 <=? r) && (r <=? 222)).

Section IsUpper.
(** The range table [unicode.Upper] past Latin-1. *)
Variable Upper : Z -> bool.

Definition IsUpper (r : Z) : bool :=
  if r <=? MaxLatin1 then latin1Upper r else Upper r.
End IsUpper.

End unicode.

(** ** strings.Split, for a separator of one byte *)

Module strings.

Fixpoint Split (s : string) (sep : ascii) : list string :=
  match s with
  | EmptyString => [EmptyString]
  | String c s' =>
      if Ascii.eqb c sep then EmptyString :: Split s' sep
      else match Split s' sep with
           | p :: ps => String c p :: ps
           | [] => [String c EmptyString]
           end
  end.

End strings.

(** ** strconv.Atoi, with a 64-bit [int] *)

Module strconv.

Inductive Err := ErrSyntax | ErrRange.

Record NumError := mkNumError { Func : string; Num : string; Err_ : Err }.

Definition byte (c : ascii) : Z := Z.of_N (N_of_ascii c).

Definition maxUint64 : Z := 2 ^ 64 - 1.

(** The loop of [ParseUint(s, 10, 0)] over the bytes of [s], [n] the
    number read so far; a byte that is no decimal digit is a syntax
    error, overflow of 64 bits a range error with [maxVal]. *)
Fixpoint parseUintLoop (s : string) (n : Z) : Z * option Err :=
  match s with
  | EmptyString => (n, None)
  | String c s' =>
      if (48 <=? byte c) && (byte c <=? 57) then
        let d := byte c - 48 in
        if n >=? maxUint64 / 10 + 1 then (maxUint64, Some ErrRange)
        else
          let n := (n * 10) mod 2 ^ 64 in
          let n1 := (n + d) mod 2 ^ 64 in
          if (n1 <? n) || (n1 >? maxUint64) then (maxUint64, Some ErrRange)
          else parseUintLoop s' n1
      else (0, Some ErrSyntax)
  end.

Definition ParseUint (s : string) : Z * option Err :=
  match s with
  | EmptyString => (0, Some ErrSyntax)
  | _ => parseUintLoop s 0
  end.

Definition isPlus (c : ascii) : bool := Ascii.eqb c "+".
Definition isMinus (c : ascii) : bool := Ascii.eqb c "-".

(** [ParseInt(s, 10, 0)]. *)
Definition ParseInt (s : string) : Z * option Err :=
  match s with
  | EmptyString => (0, Some ErrSyntax)
  | String c rest =>
      let neg := isMinus c in
      let s1 := if isPlus c || isMinus c then rest else s in
      let '(un, err) := ParseUint s1 in
      match err with
      | Some ErrSyntax => (0, Some ErrSyntax)
      | _ =>
          let cutoff := 2 ^ 63 in
          if negb neg && (un >=? cutoff) then (cutoff - 1, Some ErrRange)
          else if neg && (un >? cutoff) then (- cutoff, Some ErrRange)
          else (if neg then - un else un, None)
      end
  end.

(** The fast path's loop: [ch -= '0'] wraps in a byte. *)
Fixpoint atoiLoop (s : string) (n : Z) : option Z :=
  match s with
  | EmptyString => Some n
  | String c s' =>
      let ch := (byte c - 48) mod 256 in
      if ch >? 9 then None else atoiLoop s' (n * 10 + ch)
  end.

Definition Atoi (s : string) : Z * option NumError :=
  let sLen := Z.of_nat (String.length s) in
  if (0 <? sLen) && (sLen <? 19) then
    match s with
    | String c rest =>
        let signed := isMinus c || isPlus c in
        let s1 := if signed then rest else s in
        if signed && (Z.of_nat (String.length s1) <? 1)
        then (0, Some (mkNumError "Atoi" s ErrSyntax))
        else match atoiLoop s1 0 with
             | None => (0, Some (mkNumError "Atoi" s ErrSyntax))
             | Some n => (if isMinus c then - n else n, None)
             end
    | EmptyString => (0, Some (mkNumError "Atoi" s ErrSyntax))
    end
  else
    let '(i64, err) := ParseInt s in
    (i64, option_map (mkNumError "Atoi" s) err).

End strconv.


(** ** ast.Inspect

    Both functions the program hands to [ast.Inspect] return [true] on
    every node, so the walk visits every node of the tree, parents
    before children, in the order of [ast.Walk].  [walk] lists the nodes
    in that order; the nodes of a function's type and body, which
    neither function looks at, are left out of the list, their children
    are in it. *)

Inductive Node : Type :=
| FileNode (n : ast.File)
| DeclNode (n : ast.Decl)
| SpecNode (n : ast.Spec)
| StmtNode (n : ast.Stmt)
| FieldListNode (n : ast.FieldList)
| FieldNode (n : ast.Field)
| ExprNode (n : ast.Expr)
| CompositeLitNode (n : ast.ValueExpr).

Definition walkIdent (x : ast.Ident) : list Node := [ExprNode (ast.IdentExpr x)].

Definition walkTag (t : option ast.BasicLit) : list Node :=
  match t with
  | Some x => [ExprNode (ast.BasicLitExpr x)]
  | None => []
  end.

Fixpoint walkExpr (e : ast.Expr) : list Node :=
  ExprNode e ::
  match e with
  | ast.IdentExpr _ | ast.BasicLitExpr _ => []
  | ast.StarExpr _ x => walkExpr x
  | ast.ArrayType _ len elt =>
      match len with Some l => walkExpr l | None => [] end ++ walkExpr elt
  | ast.SelectorExpr x sel => walkExpr x ++ walkIdent sel
  | ast.MapType _ key value => walkExpr key ++ walkExpr value
  | ast.StructType _ opening list closing =>
      FieldListNode (ast.mkFieldList opening list closing) ::
      concat (map (fun f =>
                     FieldNode f ::
                     concat (map walkIdent (ast.Field_Names f))
                       ++ walkExpr (ast.Field_Type f)
                       ++ walkTag (ast.Field_Tag f)) list)
  end.

Definition walkField (f : ast.Field) : list Node :=
  FieldNode f ::
  concat (map walkIdent (ast.Field_Names f))
    ++ walkExpr (ast.Field_Type f) ++ walkTag (ast.Field_Tag f).

Definition walkFieldList (l : ast.FieldList) : list Node :=
  FieldListNode l :: concat (map walkField (ast.List l)).

Definition walkOpt {A} (w : A -> list Node) (x : option A) : list Node :=
  match x with Some a => w a | None => [] end.

Fixpoint walkValue (v : ast.ValueExpr) : list Node :=
  match v with
  | ast.CompositeLit type _ elts _ =>
      CompositeLitNode v :: walkOpt walkExpr type ++ concat (map walkValue elts)
  | ast.Operand x => walkExpr x
  end.

Definition walkSpec (s : ast.Spec) : list Node :=
  SpecNode s ::
  match s with
  | ast.TypeSpec name type => walkIdent name ++ walkOpt walkExpr type
  | ast.ValueSpec name0 names type values =>
      concat (map walkIdent (name0 :: names))
        ++ walkOpt walkExpr type ++ concat (map walkValue values)
  end.

Definition walkStmt (s : ast.Stmt) : list Node :=
  StmtNode s ::
  match s with
  | ast.DeclStmt specs =>
      DeclNode (ast.GenDecl specs) :: concat (map walkSpec specs)
  | ast.ExprStmt x => walkValue x
  | ast.AssignStmt lhs rhs =>
      concat (map walkValue lhs) ++ concat (map walkValue rhs)
  | ast.ReturnStmt results => concat (map walkValue results)
  end.

Definition walkDecl (d : ast.Decl) : list Node :=
  DeclNode d ::
  match d with
  | ast.GenDecl specs => concat (map walkSpec specs)
  | ast.FuncDecl recv name params results body =>
      walkOpt walkFieldList recv ++ walkIdent name
        ++ walkFieldList params ++ walkOpt walkFieldList results
        ++ walkOpt (fun b => concat (map walkStmt b)) body
  end.

Definition walk (file : ast.File) : list Node :=
  FileNode file ::
  walkIdent (ast.FileName file) ++ concat (map walkDecl (ast.Decls file)).

(** [ast.Inspect(node, f)] for an [f] that reads the tree, keeps its
    state in [S] and always returns [true]. *)
Definition Inspect {S} (file : ast.File) (f : Node -> S -> S) (init : S) : S :=
  fold_left (fun acc n => f n acc) (walk file) init.

(** [ast.Inspect(node, f)] for an [f] that changes the struct types
    it is handed.  The walk comes to a struct type only inside a type
    expression, and [visit] is what [f] and the walk do to one type
    expression; the walk hands it every type expression the
    declarations, statements, literals and parameters of the file hold,
    and the rest of the tree stays as it is. *)
Definition inspectField (visit : ast.Expr -> ast.Expr) (f : ast.Field)
  : ast.Field :=
  ast.mkField (ast.Field_Names f) (visit (ast.Field_Type f)) (ast.Field_Tag f).

Definition inspectFieldList (visit : ast.Expr -> ast.Expr) (l : ast.FieldList)
  : ast.FieldList :=
  ast.mkFieldList (ast.Opening l) (map (inspectField visit) (ast.List l))
                  (ast.Closing l).

Fixpoint inspectValue (visit : ast.Expr -> ast.Expr) (v : ast.ValueExpr)
  : ast.ValueExpr :=
  match v with
  | ast.CompositeLit type lbrace elts rbrace =>
      ast.CompositeLit (option_map visit type) lbrace
                       (map (inspectValue visit) elts) rbrace
  | ast.Operand x => ast.Operand (visit x)
  end.

Definition inspectSpec (visit : ast.Expr -> ast.Expr) (s : ast.Spec) : ast.Spec :=
  match s with
  | ast.TypeSpec name type => ast.TypeSpec name (option_map visit type)
  | ast.ValueSpec name0 names type values =>
      ast.ValueSpec name0 names (option_map visit type)
                    (map (inspectValue visit) values)
  end.

Definition inspectStmt (visit : ast.Expr -> ast.Expr) (s : ast.Stmt) : ast.Stmt :=
  match s with
  | ast.DeclStmt specs => ast.DeclStmt (map (inspectSpec visit) specs)
  | ast.ExprStmt x => ast.ExprStmt (inspectValue visit x)
  | ast.AssignStmt lhs rhs =>
      ast.AssignStmt (map (inspectValue visit) lhs) (map (inspectValue visit) rhs)
  | ast.ReturnStmt results => ast.ReturnStmt (map (inspectValue visit) results)
  end.

Definition inspectDecl (visit : ast.Expr -> ast.Expr) (d : ast.Decl) : ast.Decl :=
  match d with
  | ast.GenDecl specs => ast.GenDecl (map (inspectSpec visit) specs)
  | ast.FuncDecl recv name params results body =>
      ast.FuncDecl (option_map (inspectFieldList visit) recv) name
                   (inspectFieldList visit params)
                   (option_map (inspectFieldList visit) results)
                   (option_map (map (inspectStmt visit)) body)
  end.

Definition inspectFile (visit : ast.Expr -> ast.Expr) (node : ast.File)
  : ast.File :=
  ast.mkFile (ast.Package node) (ast.FileName node)
             (map (inspectDecl visit) (ast.Decls node)).

(** ** main.go *)

(** [structType]: a struct type node and the name it goes by. *)
Record structType := mkStructTypeEntry
  { name : string; node : ast.StructTypeNode }.

(** The errors of the program: those of [errors.New], the [*NumError]
    of [strconv.Atoi], and [fmt.Errorf] with its format and arguments.
    [runtimePanic] stands for a run that panics. *)
Inductive error : Type :=
| errorString (s : string)
| numError (e : strconv.NumError)
| fmtErrorf (format : string) (args : list string)
| runtimePanic (s : string).

(** [fmt.Sprintf] for a format whose verbs are all %q and whose
    arguments are strings, one for each verb; [quote] is
    [strconv.Quote]. *)
Fixpoint Sprintf (quote : string -> string) (format : string)
         (args : list string) : string :=
  match format with
  | EmptyString => EmptyString
  | String "%" (String "q" format') =>
      match args with
      | arg :: args' => (quote arg ++ Sprintf quote format' args')%string
      | [] => ("%!q(MISSING)" ++ Sprintf quote format' [])%string
      end
  | String ch format' => String ch (Sprintf quote format' args)
  end.

(** The text of an error, what its method [Error] returns. *)
Definition errorText (quote : string -> string) (err : error) : string :=
  match err with
  | errorString s => s
  | numError e =>
      ("strconv." ++ strconv.Func e ++ ": parsing " ++ quote (strconv.Num e)
         ++ ": "
         ++ match strconv.Err_ e with
            | strconv.ErrSyntax => "invalid syntax"
            | strconv.ErrRange => "value out of range"
            end)%string
  | fmtErrorf format args => Sprintf quote format args
  | runtimePanic s => s
  end.

Record config := mkConfig
  { file : string;
    write : bool;
    structName : string;
    fieldName : string;
    line : string;
    start : Z;
    end_ : Z;
    all : bool;
    from : string;
    to : string;
    skipUnexportedFields : bool;
    fileSet : token.FileSet }.

Definition Line (c : config) (p : token.Pos) : Z :=
  token.PositionLine (fileSet c) p.

(** [deref] removes the leading "*" and "[]" of an expression. *)
Fixpoint deref (x : ast.Expr) : ast.Expr :=
  match x with
  | ast.StarExpr _ x => deref x
  | ast.ArrayType _ _ elt => deref elt
  | _ => x
  end.

(** The function [collectStructs] hands to [ast.Inspect]: the name and
    the type expression are read off the node, and the struct type
    [deref] finds, if any, is stored under its position.  A node of
    another kind leaves the type [nil], as does a [TypeSpec] without a
    type. *)
Definition collectStructsFunc (n : Node) (structs : gmap Z structType)
  : gmap Z structType :=
  let '(structName, t) :=
    match n with
    | SpecNode (ast.TypeSpec x (Some type)) => (ast.Name x, Some type)
    | SpecNode (ast.TypeSpec x None) => (EmptyString, None)
    | CompositeLitNode (ast.CompositeLit type _ _ _) => (EmptyString, type)
    | SpecNode (ast.ValueSpec name0 _ type _) => (ast.Name name0, type)
    | FieldNode x =>
        (match ast.Field_Names x with
         | n0 :: _ => ast.Name n0
         | [] => EmptyString
         end, Some (ast.Field_Type x))
    | _ => (EmptyString, None)
    end in
  match option_map deref t with
  | Some (ast.StructType struct opening list closing) =>
      <[ struct := {| name := structName;
                      node := ast.mkStructType struct
                                (ast.mkFieldList opening list closing) |} ]>
        structs
  | _ => structs
  end.

Definition collectStructs (node : ast.File) : gmap Z structType :=
  Inspect node collectStructsFunc ∅.

(** A [range] over a Go map visits every entry once, in an order the
    language leaves open. *)
Definition rangeOrder {V} (m : gmap Z V) (order : list (Z * V)) : Prop :=
  order ≡ₚ map_to_list m.

Definition lineSelection (c : config) (_ : ast.File) : Z * Z * option error :=
  let parts := strings.Split (line c) "," in
  match parts with
  | [] => (0, 0, Some (runtimePanic "index out of range"))
  | part0 :: _ =>
      let '(start, err) := strconv.Atoi part0 in
      match err with
      | Some e => (0, 0, Some (numError e))
      | None =>
          let '(end_, err) :=
            match parts with
            | [_; part1] => strconv.Atoi part1
            | _ => (start, None)
            end in
          match err with
          | Some e => (0, 0, Some (numError e))
          | None =>
              if start >? end_
              then (0, 0, Some (errorString
                     "wrong range. start line cannot be larger than end line"))
              else (start, end_, None)
          end
      end
  end.

Definition fieldSelection (c : config) (st : ast.StructTypeNode)
  : Z * Z * option error :=
  let encField :=
    fold_left
      (fun enc f =>
         fold_left
           (fun enc field =>
              if String.eqb (ast.Name field) (fieldName c) then Some f else enc)
           (ast.Field_Names f) enc)
      (ast.List (ast.Fields st)) None in
  match encField with
  | None =>
      (0, 0, Some (fmtErrorf "struct %q doesn't have field name %q"
                     [structName c; fieldName c]))
  | Some encField =>
      (Line c (ast.Field_Pos encField), Line c (ast.Field_End encField), None)
  end.

(** [structSelection], with the order in which the [range] over the
    collected structs visits them. *)
Definition structSelection (c : config) (order : list (Z * structType))
  : Z * Z * option error :=
  let encStruct :=
    fold_left
      (fun enc st =>
         if String.eqb (name (snd st)) (structName c)
         then Some (node (snd st)) else enc)
      order None in
  match encStruct with
  | None => (0, 0, Some (errorString "struct name does not exist"))
  | Some encStruct =>
      if negb (String.eqb (fieldName c) "") then fieldSelection c encStruct
      else (Line c (ast.StructType_Pos encStruct),
            Line c (ast.StructType_End encStruct), None)
  end.

(** [allSelection] selects all structs inside a file. *)
Definition allSelection (c : config) (file : ast.File) : Z * Z * option error :=
  match token.FileOf (fileSet c) (ast.Package file) with
  | Some f => (1, token.LineCount f, None)
  | None => (0, 0, Some (runtimePanic "nil pointer dereference"))
  end.

Definition findSelection (c : config) (node : ast.File)
                         (order : list (Z * structType))
  : Z * Z * option error :=
  if negb (String.eqb (line c) "") then lineSelection c node
  else if negb (String.eqb (structName c) "") then structSelection c order
  else if all c then allSelection c node
  else (0, 0, Some (errorString "-line, -struct or -all is not passed")).

(** [validate] validates whether the config is valid or not. *)
Definition validate (c : config) : option error :=
  if String.eqb (file c) "" then Some (errorString "no file is passed")
  else if String.eqb (line c) "" && String.eqb (structName c) ""
          && negb (all c)
  then Some (errorString "-line, -struct or -all is not passed")
  else if negb (String.eqb (line c) "") && negb (String.eqb (structName c) "")
  then Some (errorString "-line or -struct cannot be used together. pick one")
  else if negb (String.eqb (fieldName c) "") && String.eqb (structName c) ""
  then Some (errorString "-field is requiring -struct")
  else None.

Section Program.

(** [unicode.Upper] past Latin-1, the one table of the library that
    is taken as given. *)
Variable Upper : Z -> bool.

Definition isPublicName (name : string) : bool :=
  match unicode.firstRune name with
  | Some c => unicode.IsUpper Upper c
  | None => false
  end.

(** The name [rewrite] settles on for a field, as [fieldName] stands
    before the test [fieldName == ""]: the first name that passes,
    the type's name for an anonymous field when unexported fields are
    not skipped.  [None] when the loop goes on to the next field at
    the failed type assertion of an anonymous field. *)
Definition fieldNameOf (c : config) (f : ast.Field) : option string :=
  let fieldName :=
    match List.find (fun field => negb (skipUnexportedFields c)
                                  || isPublicName (ast.Name field))
                    (ast.Field_Names f) with
    | Some field => ast.Name field
    | None => EmptyString
    end in
  match ast.Field_Names f with
  | [] =>
      match ast.Field_Type f with
      | ast.IdentExpr ident =>
          Some (if negb (skipUnexportedFields c) then ast.Name ident
                else fieldName)
      | _ => None
      end
  | _ => Some fieldName
  end.

(** One round of the loop over the fields of a struct: the type the
    round assigns to [f.Type], [None] when it assigns none. *)
Definition rewriteFuncField (c : config) (start end_ : Z) (f : ast.Field)
  : option ast.Expr :=
  let line := Line c (ast.Field_Pos f) in
  if negb ((start <=? line) && (line <=? end_)) then None
  else match fieldNameOf c f with
       | None => None
       | Some fieldName =>
           if String.eqb fieldName "" then None
           else
             let typeString := types.ExprString (ast.Field_Type f) in
             if String.eqb typeString (from c)
             then Some (ast.IdentExpr (ast.NewIdent (to c)))
             else None
       end.

(** [ast.Inspect(node, rewriteFunc)].  [rewriteFunc] runs on a struct
    type before the walk goes on to its fields, so the walk finds the
    types the loop has left: a type the loop has put in is an
    identifier, where the walk has nothing more to visit, the other
    types are walked in turn. *)
Fixpoint rewriteExpr (c : config) (start end_ : Z) (e : ast.Expr) : ast.Expr :=
  match e with
  | ast.IdentExpr _ | ast.BasicLitExpr _ => e
  | ast.StarExpr star x => ast.StarExpr star (rewriteExpr c start end_ x)
  | ast.ArrayType lbrack len elt =>
      ast.ArrayType lbrack (option_map (rewriteExpr c start end_) len)
                    (rewriteExpr c start end_ elt)
  | ast.SelectorExpr x sel => ast.SelectorExpr (rewriteExpr c start end_ x) sel
  | ast.MapType map key value =>
      ast.MapType map (rewriteExpr c start end_ key)
                  (rewriteExpr c start end_ value)
  | ast.StructType struct opening list closing =>
      ast.StructType struct opening
        (map (fun f =>
                match rewriteFuncField c start end_ f with
                | Some type => ast.mkField (ast.Field_Names f) type (ast.Field_Tag f)
                | None =>
                    ast.mkField (ast.Field_Names f)
                      (rewriteExpr c start end_ (ast.Field_Type f))
                      (ast.Field_Tag f)
                end) list)
        closing
  end.

Definition rewriteFile (c : config) (start end_ : Z) (node : ast.File)
  : ast.File :=
  inspectFile (rewriteExpr c start end_) node.

Definition setSpan (c : config) (start' end' : Z) : config :=
  {| file := file c; write := write c; structName := structName c;
     fieldName := fieldName c; line := line c;
     start := start'; end_ := end';
     all := all c; from := from c; to := to c;
     skipUnexportedFields := skipUnexportedFields c;
     fileSet := fileSet c |}.

(** [rewrite] rewrites the node for structs between the start and end
    positions; the tree is changed in place, and the span is kept in
    the config. *)
Definition rewrite (c : config) (node : ast.File) (start end_ : Z)
  : config * ast.File * option error :=
  (setSpan c start end_, rewriteFile c start end_ node, None).

(** What a run leaves: the tree as it stands at the end, the tree
    handed to [format] if the run gets there, and the error. *)
Record outcome := mkOutcome
  { tree : ast.File; formatted : option ast.File; failure : option error }.

(** [run] from the parsed file on, up to the call of [format]. *)
Definition run (c : config) (node : ast.File) (order : list (Z * structType))
  : outcome :=
  match validate c with
  | Some err => mkOutcome node None (Some err)
  | None =>
      let '(start, end_, err) := findSelection c node order in
      match err with
      | Some err => mkOutcome node None (Some err)
      | None =>
          let '(_, rewrittenNode, err) := rewrite c node start end_ in
          match err with
          | Some err => mkOutcome rewrittenNode None (Some err)
          | None => mkOutcome rewrittenNode (Some rewrittenNode) None
          end
      end
  end.

End Program.

(** ** Notions the statements use *)

(** [contains c s]: the byte [c] occurs in [s]. *)
Fixpoint contains (c : ascii) (s : string) : bool :=
  match s with
  | EmptyString => false
  | String c' s' => Ascii.eqb c' c || contains c s'
  end.

Definition isDigit (c : ascii) : bool :=
  (48 <=? strconv.byte c) && (strconv.byte c <=? 57).

Fixpoint allDigits (s : string) : bool :=
  match s with
  | EmptyString => true
  | String c s' => isDigit c && allDigits s'
  end.

(** The spelling of an integer: decimal digits, at least one, after an
    optional sign. *)
Definition isDecimal (s : string) : bool :=
  match s with
  | EmptyString => false
  | String c rest =>
      if strconv.isPlus c || strconv.isMinus c
      then negb (String.eqb rest "") && allDigits rest
      else allDigits s
  end.

(** The number a run of decimal digits stands for, read after [acc]. *)
Fixpoint digitsValue (s : string) (acc : Z) : Z :=
  match s with
  | EmptyString => acc
  | String c s' => digitsValue s' (acc * 10 + (strconv.byte c - 48))
  end.

(** The integer a decimal numeral stands for. *)
Definition decimalValue (s : string) : Z :=
  match s with
  | EmptyString => 0
  | String c rest =>
      if strconv.isMinus c then - digitsValue rest 0
      else if strconv.isPlus c then digitsValue rest 0
      else digitsValue s 0
  end.

(** The integers an [int] of 64 bits holds. *)
Definition inInt (n : Z) : Prop := - 2 ^ 63 <= n <= 2 ^ 63 - 1.

(** The tokens of the line string. *)
Definition lineTokens (c : config) : list string :=
  strings.Split (line c) ",".

Definition wrongRange : error :=
  errorString "wrong range. start line cannot be larger than end line".

(** *** The fields the rewrite is about *)

(** The start line of the field lies in the span. *)
Definition inSpan (c : config) (start end_ : Z) (f : ast.Field) : bool :=
  (start <=? Line c (ast.Field_Pos f)) && (Line c (ast.Field_Pos f) <=? end_).

(** The representative name of the field resolves, and is not empty. *)
Definition named (Upper : Z -> bool) (c : config) (f : ast.Field) : bool :=
  match fieldNameOf Upper c f with
  | Some fieldName => negb (String.eqb fieldName "")
  | None => false
  end.

(** The type of the field is spelled [from]. *)
Definition spelledFrom (c : config) (f : ast.Field) : bool :=
  String.eqb (types.ExprString (ast.Field_Type f)) (from c).

Definition selected (Upper : Z -> bool) (c : config) (start end_ : Z)
           (f : ast.Field) : bool :=
  inSpan c start end_ f && named Upper c f && spelledFrom c f.

(** The type a rewritten field has: the plain identifier [to]. *)
Definition toIdent (c : config) : ast.Expr := ast.IdentExpr (ast.NewIdent (to c)).

(** What the rewrite makes of a field of a struct type: the type is the
    identifier [to] when the field is selected; otherwise the type stays
    in place and the walk goes on inside it. *)
Definition rewriteStructField (Upper : Z -> bool) (c : config) (start end_ : Z)
           (f : ast.Field) : ast.Field :=
  if selected Upper c start end_ f
  then ast.mkField (ast.Field_Names f) (toIdent c) (ast.Field_Tag f)
  else ast.mkField (ast.Field_Names f)
                   (rewriteExpr Upper c start end_ (ast.Field_Type f))
                   (ast.Field_Tag f).

(** The fields of the struct types in an expression, at any depth. *)
Fixpoint structFieldsExpr (e : ast.Expr) : list ast.Field :=
  match e with
  | ast.IdentExpr _ | ast.BasicLitExpr _ => []
  | ast.StarExpr _ x => structFieldsExpr x
  | ast.ArrayType _ len elt =>
      match len with Some l => structFieldsExpr l | None => [] end
        ++ structFieldsExpr elt
  | ast.SelectorExpr x _ => structFieldsExpr x
  | ast.MapType _ key value => structFieldsExpr key ++ structFieldsExpr value
  | ast.StructType _ _ list _ =>
      concat (map (fun f => f :: structFieldsExpr (ast.Field_Type f)) list)
  end.

(** The visit leaves the type expression as it is. *)
Definition fixedBy (visit : ast.Expr -> ast.Expr) (e : ast.Expr) : Prop :=
  visit e = e.

(** The type expressions the walk comes to from outside a type
    expression, in its order: those of the specs, the literals, the
    operands, the parameters, results and receivers. *)
Definition typeExprsOpt (e : option ast.Expr) : list ast.Expr :=
  match e with Some e => [e] | None => [] end.

Definition typeExprsFieldList (l : ast.FieldList) : list ast.Expr :=
  map ast.Field_Type (ast.List l).

Fixpoint typeExprsValue (v : ast.ValueExpr) : list ast.Expr :=
  match v with
  | ast.CompositeLit type _ elts _ =>
      typeExprsOpt type ++ concat (map typeExprsValue elts)
  | ast.Operand x => [x]
  end.

Definition typeExprsSpec (s : ast.Spec) : list ast.Expr :=
  match s with
  | ast.TypeSpec _ type => typeExprsOpt type
  | ast.ValueSpec _ _ type values =>
      typeExprsOpt type ++ concat (map typeExprsValue values)
  end.

Definition typeExprsStmt (s : ast.Stmt) : list ast.Expr :=
  match s with
  | ast.DeclStmt specs => concat (map typeExprsSpec specs)
  | ast.ExprStmt x => typeExprsValue x
  | ast.AssignStmt lhs rhs =>
      concat (map typeExprsValue lhs) ++ concat (map typeExprsValue rhs)
  | ast.ReturnStmt results => concat (map typeExprsValue results)
  end.

Definition typeExprsDecl (d : ast.Decl) : list ast.Expr :=
  match d with
  | ast.GenDecl specs => concat (map typeExprsSpec specs)
  | ast.FuncDecl recv _ params results body =>
      match recv with Some l => typeExprsFieldList l | None => [] end
        ++ typeExprsFieldList params
        ++ match results with Some l => typeExprsFieldList l | None => [] end
        ++ match body with
           | Some b => concat (map typeExprsStmt b)
           | None => []
           end
  end.

Definition typeExprs (node : ast.File) : list ast.Expr :=
  concat (map typeExprsDecl (ast.Decls node)).

(** Every field of every struct type of the file.  Parameters, results
    and receivers are no struct fields; their types may hold struct
    types. *)
Definition structFields (node : ast.File) : list ast.Field :=
  concat (map structFieldsExpr (typeExprs node)).

(** The fields of the struct types the walk of the rewrite reaches:
    the walk does not go into the type of a field that is selected,
    which the loop has replaced. *)
Fixpoint reachedFieldsExpr (Upper : Z -> bool) (c : config) (start end_ : Z)
         (e : ast.Expr) : list ast.Field :=
  match e with
  | ast.IdentExpr _ | ast.BasicLitExpr _ => []
  | ast.StarExpr _ x => reachedFieldsExpr Upper c start end_ x
  | ast.ArrayType _ len elt =>
      match len with
      | Some l => reachedFieldsExpr Upper c start end_ l
      | None => []
      end ++ reachedFieldsExpr Upper c start end_ elt
  | ast.SelectorExpr x _ => reachedFieldsExpr Upper c start end_ x
  | ast.MapType _ key value =>
      reachedFieldsExpr Upper c start end_ key
        ++ reachedFieldsExpr Upper c start end_ value
  | ast.StructType _ _ list _ =>
      concat (map (fun f =>
                     f :: if selected Upper c start end_ f then []
                          else reachedFieldsExpr Upper c start end_
                                                 (ast.Field_Type f))
                  list)
  end.

Definition reachedFields (Upper : Z -> bool) (c : config) (start end_ : Z)
           (node : ast.File) : list ast.Field :=
  concat (map (reachedFieldsExpr Upper c start end_) (typeExprs node)).

(** The expression holds a struct type. *)
Fixpoint hasStruct (e : ast.Expr) : bool :=
  match e with
  | ast.IdentExpr _ | ast.BasicLitExpr _ => false
  | ast.StarExpr _ x => hasStruct x
  | ast.ArrayType _ len elt =>
      match len with Some l => hasStruct l | None => false end || hasStruct elt
  | ast.SelectorExpr x _ => hasStruct x
  | ast.MapType _ key value => hasStruct key || hasStruct value
  | ast.StructType _ _ _ _ => true
  end.

(** [hasPrefix pat s]: [s] starts with [pat]. *)
Fixpoint hasPrefix (pat s : string) : bool :=
  match pat with
  | EmptyString => true
  | String a pat' =>
      match s with
      | EmptyString => false
      | String b s' => Ascii.eqb a b && hasPrefix pat' s'
      end
  end.

(** [hasInfix pat s]: [pat] occurs in [s]. *)
Fixpoint hasInfix (pat s : string) : bool :=
  hasPrefix pat s
  || match s with
     | EmptyString => false
     | String _ s' => hasInfix pat s'
     end.

(** *** The structs the selection is about *)

(** The entry goes by the struct name asked for. *)
Definition isNamed (c : config) (entry : Z * structType) : bool :=
  String.eqb (name (snd entry)) (structName c).

(** The field declares the field name asked for. *)
Definition declares (c : config) (f : ast.Field) : bool :=
  existsb (fun field => String.eqb (ast.Name field) (fieldName c))
          (ast.Field_Names f).

Definition structNotFound : error := errorString "struct name does not exist".

Definition fieldNotFound (c : config) : error :=
  fmtErrorf "struct %q doesn't have field name %q" [structName c; fieldName c].

(** The span of a struct type: the line of its [struct] keyword and the
    line of its end. *)
Definition structSpan (c : config) (x : ast.StructTypeNode) : Z * Z * option error :=
  (Line c (ast.Struct x), Line c (ast.StructType_End x), None).

Definition fieldSpan (c : config) (f : ast.Field) : Z * Z * option error :=
  (Line c (ast.Field_Pos f), Line c (ast.Field_End f), None).

(** The structs in the order in which the walk of [collectStructs]
    comes to them. *)
Definition visited (file : ast.File) : list (Z * structType) :=
  flat_map (fun n => map_to_list (collectStructsFunc n ∅)) (walk file).

(** ** Inputs the examples run on *)

(** A config that selects by the line string. *)
Definition lineConfig (l : string) : config :=
  mkConfig "example.go" false "" "" l 0 0 false "string" "[]byte" false [].

Definition emptyFile : ast.File :=
  ast.mkFile 1 (ast.mkIdent 9 "main") [].

(** The file of the program's test, [field_type_modify.input] in
    outline:
<<
package main

type foo struct {
	bar string
	baz int
}
>>
    with the positions the parser gives its nodes (base 1). *)
Definition fooFileSet : token.FileSet :=
  [token.mkFile 1 55 [0; 13; 14; 32; 44; 53]].

Definition fooFields : list ast.Field :=
  [ast.mkField [ast.mkIdent 34 "bar"] (ast.IdentExpr (ast.mkIdent 38 "string")) None;
   ast.mkField [ast.mkIdent 46 "baz"] (ast.IdentExpr (ast.mkIdent 50 "int")) None].

Definition fooFile : ast.File :=
  ast.mkFile 1 (ast.mkIdent 9 "main")
    [ast.GenDecl
       [ast.TypeSpec (ast.mkIdent 20 "foo")
          (Some (ast.StructType 24 31 fooFields 54))]].

(** [-struct foo -field bar -from string -to []byte], as in the test. *)
Definition fooConfig : config :=
  mkConfig "foo.go" false "foo" "bar" "" 0 0 false "string" "[]byte" false
           fooFileSet.

Definition fooRewritten : ast.File :=
  ast.mkFile 1 (ast.mkIdent 9 "main")
    [ast.GenDecl
       [ast.TypeSpec (ast.mkIdent 20 "foo")
          (Some (ast.StructType 24 31
                   [ast.mkField [ast.mkIdent 34 "bar"]
                                (ast.IdentExpr (ast.mkIdent 0 "[]byte")) None;
                    ast.mkField [ast.mkIdent 46 "baz"]
                                (ast.IdentExpr (ast.mkIdent 50 "int")) None]
                   54))]].

(** A field [a, B int] on line 4 of the same file. *)
Definition groupField : ast.Field :=
  ast.mkField [ast.mkIdent 34 "a"; ast.mkIdent 37 "B"]
              (ast.IdentExpr (ast.mkIdent 39 "int")) None.

Definition groupConfig (skip : bool) : config :=
  mkConfig "foo.go" false "" "" "4" 0 0 false "int" "int64" skip fooFileSet.

(** A struct type inside a struct type inside a struct type:
<<
package main

type S struct {
	x struct{ a struct{ a T } }
}
>>
    and the same file after one and after two runs of
    [-all -from "struct{a T}" -to T]. *)
Definition nestedFileSet : token.FileSet :=
  [token.mkFile 1 61 [0; 13; 14; 30; 59]].

Definition nestedConfig : config :=
  mkConfig "nested.go" false "" "" "" 0 0 true "struct{a T}" "T" false
           nestedFileSet.

Definition nestedDecl (type : ast.Expr) : ast.File :=
  ast.mkFile 1 (ast.mkIdent 9 "main")
    [ast.GenDecl
       [ast.TypeSpec (ast.mkIdent 20 "S")
          (Some (ast.StructType 22 29
                   [ast.mkField [ast.mkIdent 32 "x"] type None] 60))]].

Definition nestedFile : ast.File :=
  nestedDecl
    (ast.StructType 34 40
       [ast.mkField [ast.mkIdent 42 "a"]
          (ast.StructType 44 50
             [ast.mkField [ast.mkIdent 52 "a"]
                          (ast.IdentExpr (ast.mkIdent 54 "T")) None] 56)
          None] 58).

Definition nestedOnce : ast.File :=
  nestedDecl
    (ast.StructType 34 40
       [ast.mkField [ast.mkIdent 42 "a"] (ast.IdentExpr (ast.NewIdent "T")) None]
       58).

Definition nestedTwice : ast.File :=
  nestedDecl (ast.IdentExpr (ast.NewIdent "T")).

(** A struct type whose spelling is [from], with fields of its own:
<<
package main

type S struct {
	x struct{ a int; b string }
}
>>
    and the same file after [-all -from "struct{a int; b string}" -to T].
    The lines are those of [nestedFileSet]. *)
Definition enclosedConfig : config :=
  mkConfig "enclosed.go" false "" "" "" 0 0 true "struct{a int; b string}" "T"
           false nestedFileSet.

Definition enclosedFields : list ast.Field :=
  [ast.mkField [ast.mkIdent 42 "a"] (ast.IdentExpr (ast.mkIdent 44 "int")) None;
   ast.mkField [ast.mkIdent 49 "b"] (ast.IdentExpr (ast.mkIdent 51 "string")) None].

Definition enclosedFile : ast.File :=
  nestedDecl (ast.StructType 34 40 enclosedFields 58).

Definition enclosedOnce : ast.File :=
  nestedDecl (ast.IdentExpr (ast.NewIdent "T")).

(** The opening brace on the line after the [struct] keyword, which
    the parser accepts:
<<
package main

type foo struct
{
	bar string
}
>>
 *)
Definition braceFileSet : token.FileSet :=
  [token.mkFile 1 46 [0; 13; 14; 30; 32; 44]].

Definition braceStruct : ast.StructTypeNode :=
  ast.mkStructType 24
    (ast.mkFieldList 31
       [ast.mkField [ast.mkIdent 34 "bar"]
                    (ast.IdentExpr (ast.mkIdent 38 "string")) None]
       45).

Definition braceFile : ast.File :=
  ast.mkFile 1 (ast.mkIdent 9 "main")
    [ast.GenDecl [ast.TypeSpec (ast.mkIdent 20 "foo")
                               (Some (ast.StructExpr braceStruct))]].

Definition braceConfig : config :=
  mkConfig "brace.go" false "foo" "" "" 0 0 false "string" "[]byte" false
           braceFileSet.

(** Two struct types that go by the name [foo], a declared type and
    the type of a parameter:
<<
package main

type foo struct {
	a int
}

func f(foo struct{ b int }) {}
>>
 *)
Definition twoFileSet : token.FileSet :=
  [token.mkFile 1 73 [0; 13; 14; 32; 39; 41; 42]].

Definition declaredFoo : ast.StructTypeNode :=
  ast.mkStructType 24
    (ast.mkFieldList 31
       [ast.mkField [ast.mkIdent 34 "a"] (ast.IdentExpr (ast.mkIdent 36 "int")) None]
       40).

Definition parameterFoo : ast.StructTypeNode :=
  ast.mkStructType 54
    (ast.mkFieldList 60
       [ast.mkField [ast.mkIdent 62 "b"] (ast.IdentExpr (ast.mkIdent 64 "int")) None]
       68).

Definition twoFile : ast.File :=
  ast.mkFile 1 (ast.mkIdent 9 "main")
    [ast.GenDecl [ast.TypeSpec (ast.mkIdent 20 "foo")
                               (Some (ast.StructExpr declaredFoo))];
     ast.FuncDecl None (ast.mkIdent 48 "f")
       (ast.mkFieldList 49
          [ast.mkField [ast.mkIdent 50 "foo"] (ast.StructExpr parameterFoo) None]
          69)
       None (Some [])].

Definition twoConfig : config :=
  mkConfig "two.go" false "foo" "" "" 0 0 false "int" "int64" false twoFileSet.

(** Two orders in which a range over the structs of [twoFile] can go. *)
Definition declaredLast : list (Z * structType) :=
  [(54, mkStructTypeEntry "foo" parameterFoo);
   (24, mkStructTypeEntry "foo" declaredFoo)].

Definition parameterLast : list (Z * structType) :=
  [(24, mkStructTypeEntry "foo" declaredFoo);
   (54, mkStructTypeEntry "foo" parameterFoo)].

(** [-struct foo] alone on the file of the test. *)
Definition fooStructConfig : config :=
  mkConfig "foo.go" false "foo" "" "" 0 0 false "string" "[]byte" false
           fooFileSet.

Definition fooEntry : structType :=
  mkStructTypeEntry "foo" (ast.mkStructType 24 (ast.mkFieldList 31 fooFields 54)).

(** Names the file of the test does not have. *)
Definition noStructConfig : config :=
  mkConfig "foo.go" false "bar" "" "" 0 0 false "string" "[]byte" false
           fooFileSet.

Definition noFieldConfig : config :=
  mkConfig "foo.go" false "foo" "qux" "" 0 0 false "string" "[]byte" false
           fooFileSet.

(** ** Notions of the further properties *)

(** The structs the function of [collectStructs] stores at the nodes
    of a list, in the order of the list. *)
Definition visitedNodes (ns : list Node) : list (Z * structType) :=
  flat_map (fun n => map_to_list (collectStructsFunc n ∅)) ns.

(** The name [collectStructs] reads off a field: its first name. *)
Definition firstName (f : ast.Field) : string :=
  match ast.Field_Names f with
  | n0 :: _ => ast.Name n0
  | [] => EmptyString
  end.

(** The entry of a struct type under a name. *)
Definition structEntry (structName : string) (struct opening : token.Pos)
           (fields : list ast.Field) (closing : token.Pos) : structType :=
  {| name := structName;
     node := ast.mkStructType struct (ast.mkFieldList opening fields closing) |}.

(** The switch of the function of [collectStructs]: the entry [st] is
    what the function stores at the node [n], the struct type that
    [deref] finds in the type of the node, under the name of the node. *)
Definition collectedFrom (n : Node) (st : structType) : Prop :=
  match n with
  | SpecNode (ast.TypeSpec x (Some t)) =>
      name st = ast.Name x /\ deref t = ast.StructExpr (node st)
  | SpecNode (ast.ValueSpec name0 _ (Some t) _) =>
      name st = ast.Name name0 /\ deref t = ast.StructExpr (node st)
  | FieldNode f =>
      name st = firstName f /\ deref (ast.Field_Type f) = ast.StructExpr (node st)
  | CompositeLitNode (ast.CompositeLit (Some t) _ _ _) =>
      name st = EmptyString /\ deref t = ast.StructExpr (node st)
  | _ => False
  end.

(** What the loop of [rewrite] does with a field once its line is in
    the span. *)
Definition rewrittenInSpan (Upper : Z -> bool) (c : config) (f : ast.Field)
  : option ast.Expr :=
  if named Upper c f && spelledFrom c f then Some (toIdent c) else None.

(** The config with [skipUnexportedFields] set to [skip]. *)
Definition withSkip (c : config) (skip : bool) : config :=
  {| file := file c; write := write c; structName := structName c;
     fieldName := fieldName c; line := line c;
     start := start c; end_ := end_ c;
     all := all c; from := from c; to := to c;
     skipUnexportedFields := skip;
     fileSet := fileSet c |}.

(** The lines of the span [u1, u2] are those of [a, b] and [a', b']. *)
Definition spansUnion (a b a' b' u1 u2 : Z) : Prop :=
  forall l : Z,
    (u1 <=? l) && (l <=? u2)
    = ((a <=? l) && (l <=? b)) || ((a' <=? l) && (l <=? b')).

(** ** Further inputs *)

(** [-all] on the file of the test. *)
Definition fooAllConfig : config :=
  mkConfig "foo.go" false "" "" "" 0 0 true "string" "[]byte" false fooFileSet.

(** [-all] on the file of the test, from [string] to [string]. *)
Definition sameConfig : config :=
  mkConfig "foo.go" false "" "" "" 0 0 true "string" "string" false fooFileSet.

(** [-line 4,5] on the file of the test, from [int] to [int64]. *)
Definition fooIntConfig : config :=
  mkConfig "foo.go" false "" "" "4,5" 0 0 false "int" "int64" false fooFileSet.

(** An embedded field [string] on line 4 of the file of the test. *)
Definition embeddedField : ast.Field :=
  ast.mkField [] (ast.IdentExpr (ast.mkIdent 34 "string")) None.

(** Two struct types under two names, a declared type and the type of
    a parameter:
<<
package main

type foo struct {
	a int
}

func f(bar struct{ b int }) {}
>>
    and two orders in which a range over them can go. *)
Definition pairFile : ast.File :=
  ast.mkFile 1 (ast.mkIdent 9 "main")
    [ast.GenDecl [ast.TypeSpec (ast.mkIdent 20 "foo")
                               (Some (ast.StructExpr declaredFoo))];
     ast.FuncDecl None (ast.mkIdent 48 "f")
       (ast.mkFieldList 49
          [ast.mkField [ast.mkIdent 50 "bar"] (ast.StructExpr parameterFoo) None]
          69)
       None (Some [])].

Definition fooLast : list (Z * structType) :=
  [(54, mkStructTypeEntry "bar" parameterFoo);
   (24, mkStructTypeEntry "foo" declaredFoo)].

Definition barLast : list (Z * structType) :=
  [(24, mkStructTypeEntry "foo" declaredFoo);
   (54, mkStructTypeEntry "bar" parameterFoo)].

(** * Line selection *)

Lemma byte_range (c : ascii) : 0 <= strconv.byte c < 256.
Proof.
  unfold strconv.byte. pose proof (N_ascii_bounded c). lia.
Qed.

Lemma Split_not_nil (s : string) (sep : ascii) : strings.Split s sep <> [].
Proof.
  destruct s as [|c s]; simpl; [discriminate|].
  destruct (Ascii.eqb c sep); [discriminate|].
  destruct (strings.Split s sep); discriminate.
Qed.

Lemma Split_no_sep (s : string) (sep : ascii) :
  contains sep s = false -> strings.Split s sep = [s].
Proof.
  induction s as [|c s IH]; simpl; [reflexivity|].
  intros H. apply orb_false_iff in H as [Hc Hs].
  rewrite Hc, (IH Hs). reflexivity.
Qed.

Lemma Split_sep (t rest : string) (sep : ascii) :
  contains sep t = false ->
  strings.Split (t ++ String sep rest) sep = t :: strings.Split rest sep.
Proof.
  induction t as [|c t IH]; simpl.
  - intros _. rewrite Ascii.eqb_refl. reflexivity.
  - intros H. apply orb_false_iff in H as [Hc Ht].
    rewrite Hc, (IH Ht). reflexivity.
Qed.

Lemma allDigits_no_comma (s : string) :
  allDigits s = true -> contains "," s = false.
Proof.
  induction s as [|c s IH]; simpl; [reflexivity|].
  intros H. apply andb_true_iff in H as [Hc Hs]. rewrite (IH Hs), orb_false_r.
  apply Ascii.eqb_neq. intros ->. vm_compute in Hc. discriminate.
Qed.

Lemma isDecimal_no_comma (s : string) :
  isDecimal s = true -> contains "," s = false.
Proof.
  destruct s as [|c rest]; simpl; [reflexivity|].
  destruct (strconv.isPlus c || strconv.isMinus c) eqn:Hsign.
  - intros H. apply andb_true_iff in H as [_ H].
    rewrite (allDigits_no_comma _ H), orb_false_r.
    apply Ascii.eqb_neq. intros ->. vm_compute in Hsign. discriminate.
  - intros H. change (allDigits (String c rest) = true) in H.
    apply (allDigits_no_comma _ H).
Qed.

Lemma atoi_byte_wraps (c : ascii) :
  ((strconv.byte c - 48) mod 256 >? 9) = negb (isDigit c).
Proof.
  pose proof (byte_range c) as Hb. unfold isDigit. rewrite Z.gtb_ltb.
  destruct (Z.leb_spec 48 (strconv.byte c)) as [H1|H1].
  - rewrite Z.mod_small by lia.
    destruct (Z.leb_spec (strconv.byte c) 57), (Z.ltb_spec 9 (strconv.byte c - 48));
      simpl; lia || reflexivity.
  - replace (strconv.byte c - 48) with (strconv.byte c + 208 + (-1) * 256) by lia.
    rewrite Z.mod_add by lia. rewrite Z.mod_small by lia.
    destruct (Z.ltb_spec 9 (strconv.byte c + 208)); simpl; lia || reflexivity.
Qed.

Lemma atoiLoop_digits (s : string) :
  forall n, strconv.atoiLoop s n <> None <-> allDigits s = true.
Proof.
  induction s as [|c s IH]; intros n; simpl.
  - split; [reflexivity | discriminate].
  - rewrite atoi_byte_wraps. destruct (isDigit c); simpl.
    + apply IH.
    + split; [congruence | discriminate].
Qed.

Lemma parseUintLoop_ok_digits (s : string) :
  forall n v, strconv.parseUintLoop s n = (v, None) -> allDigits s = true.
Proof.
  induction s as [|c s IH]; intros n v; simpl; [reflexivity|].
  fold (isDigit c). destruct (isDigit c); simpl; [|discriminate].
  destruct (n >=? strconv.maxUint64 / 10 + 1); [discriminate|].
  match goal with |- context [if ?b then _ else _] => destruct b end;
    [discriminate|].
  apply IH.
Qed.

Lemma parseUintLoop_range (s : string) :
  forall n v, strconv.parseUintLoop s n = (v, Some strconv.ErrRange) ->
              v = strconv.maxUint64.
Proof.
  induction s as [|c s IH]; intros n v; simpl; [discriminate|].
  destruct ((48 <=? strconv.byte c) && (strconv.byte c <=? 57)); [|discriminate].
  destruct (n >=? strconv.maxUint64 / 10 + 1); [congruence|].
  match goal with |- context [if ?b then _ else _] => destruct b end;
    [congruence|].
  apply IH.
Qed.

Lemma ParseUint_ok_digits (s : string) (v : Z) :
  strconv.ParseUint s = (v, None) -> s <> EmptyString /\ allDigits s = true.
Proof.
  destruct s as [|c s]; [discriminate|].
  unfold strconv.ParseUint. intros H. split; [discriminate|].
  eapply parseUintLoop_ok_digits, H.
Qed.

Lemma ParseInt_ok_decimal (s : string) (v : Z) :
  strconv.ParseInt s = (v, None) -> isDecimal s = true.
Proof.
  destruct s as [|c rest]; [discriminate|].
  unfold strconv.ParseInt, isDecimal.
  destruct (strconv.ParseUint (if strconv.isPlus c || strconv.isMinus c
                               then rest else String c rest))
    as [un [[|]|]] eqn:HU; [discriminate| |].
  - (* a range error of ParseUint stays one *)
    assert (un = strconv.maxUint64) as ->.
    { destruct (strconv.isPlus c || strconv.isMinus c), rest;
        try discriminate; eapply parseUintLoop_range, HU. }
    destruct (strconv.isMinus c); vm_compute; discriminate.
  - intros _. apply ParseUint_ok_digits in HU as [Hne Hd].
    destruct (strconv.isPlus c || strconv.isMinus c); [|exact Hd].
    rewrite Hd, andb_true_r. destruct rest; [congruence | reflexivity].
Qed.

Lemma Atoi_ok_decimal (s : string) (n : Z) :
  strconv.Atoi s = (n, None) -> isDecimal s = true.
Proof.
  unfold strconv.Atoi.
  destruct ((0 <? Z.of_nat (String.length s)) && (Z.of_nat (String.length s) <? 19)).
  - destruct s as [|c rest]; [discriminate|].
    unfold isDecimal. rewrite (orb_comm (strconv.isPlus c)).
    destruct (strconv.isMinus c || strconv.isPlus c); cbn [andb].
    + destruct rest as [|c' rest']; [simpl; intros [=]|].
      destruct (Z.of_nat (String.length (String c' rest')) <? 1); [discriminate|].
      destruct (strconv.atoiLoop (String c' rest') 0) eqn:HL; [|discriminate].
      intros _. apply (atoiLoop_digits _ 0). congruence.
    + destruct (strconv.atoiLoop (String c rest) 0) eqn:HL; [|discriminate].
      intros _. apply (atoiLoop_digits _ 0). congruence.
  - destruct (strconv.ParseInt s) as [i64 [e|]] eqn:HP; [discriminate|].
    intros _. eapply ParseInt_ok_decimal, HP.
Qed.

Lemma Atoi_not_decimal (s : string) :
  isDecimal s = false -> exists v e, strconv.Atoi s = (v, Some e).
Proof.
  intros H. destruct (strconv.Atoi s) as [v [e|]] eqn:HA; [eauto|].
  apply Atoi_ok_decimal in HA. congruence.
Qed.

Lemma isDigit_value (c : ascii) :
  isDigit c = true -> 0 <= strconv.byte c - 48 <= 9.
Proof. unfold isDigit. lia. Qed.

Lemma atoiLoop_value (s : string) :
  forall n, allDigits s = true -> strconv.atoiLoop s n = Some (digitsValue s n).
Proof.
  induction s as [|c s IH]; intros n; simpl; [reflexivity|].
  intros H. apply andb_true_iff in H as [Hc Hs].
  rewrite atoi_byte_wraps, Hc. simpl.
  rewrite Z.mod_small by (apply isDigit_value in Hc; lia).
  apply IH, Hs.
Qed.

Lemma digitsValue_ge (s : string) :
  forall n, allDigits s = true -> 0 <= n -> n <= digitsValue s n.
Proof.
  induction s as [|c s IH]; intros n; simpl; [lia|].
  intros H Hn. apply andb_true_iff in H as [Hc Hs].
  apply isDigit_value in Hc.
  specialize (IH (n * 10 + (strconv.byte c - 48)) Hs). lia.
Qed.

Lemma parseUintLoop_value (s : string) :
  forall n, allDigits s = true -> 0 <= n ->
            digitsValue s n <= strconv.maxUint64 ->
            strconv.parseUintLoop s n = (digitsValue s n, None).
Proof.
  unfold strconv.maxUint64.
  change (2 ^ 64) with 18446744073709551616.
  induction s as [|c s IH]; intros n; simpl; [reflexivity|].
  intros H Hn Hmax. apply andb_true_iff in H as [Hc Hs].
  fold (isDigit c). rewrite Hc. simpl.
  pose proof (isDigit_value c Hc) as Hd.
  pose proof (digitsValue_ge s (n * 10 + (strconv.byte c - 48)) Hs ltac:(lia)) as Hge.
  unfold strconv.maxUint64. change (2 ^ 64) with 18446744073709551616.
  change ((18446744073709551616 - 1) / 10 + 1) with 1844674407370955162.
  destruct (Z.geb_spec n 1844674407370955162) as [Hcut|Hcut]; [lia|].
  rewrite (Z.mod_small (n * 10)) by lia.
  rewrite (Z.mod_small (n * 10 + _)) by lia.
  destruct (Z.ltb_spec (n * 10 + (strconv.byte c - 48)) (n * 10)); [lia|].
  destruct (Z.gtb_spec (n * 10 + (strconv.byte c - 48)) (18446744073709551616 - 1)); [lia|].
  simpl. apply IH; [exact Hs | lia | exact Hmax].
Qed.

Lemma ParseUint_value (s : string) :
  s <> EmptyString -> allDigits s = true ->
  digitsValue s 0 <= strconv.maxUint64 ->
  strconv.ParseUint s = (digitsValue s 0, None).
Proof.
  destruct s as [|c s]; [contradiction|]. intros _ H Hmax.
  unfold strconv.ParseUint. apply parseUintLoop_value; [exact H | lia | exact Hmax].
Qed.

Lemma isDecimal_digits (s : string) :
  isDecimal s = true ->
  match s with
  | EmptyString => False
  | String c rest =>
      if strconv.isPlus c || strconv.isMinus c
      then rest <> EmptyString /\ allDigits rest = true
      else allDigits s = true
  end.
Proof.
  destruct s as [|c rest]; simpl; [discriminate|].
  destruct (strconv.isPlus c || strconv.isMinus c); [|auto].
  intros H. apply andb_true_iff in H as [Hne Hd]. split; [|exact Hd].
  destruct rest; [discriminate | discriminate].
Qed.

Lemma ParseInt_value (s : string) :
  isDecimal s = true -> inInt (decimalValue s) ->
  strconv.ParseInt s = (decimalValue s, None).
Proof.
  unfold inInt. change (2 ^ 63) with 9223372036854775808.
  intros Hdec Hint. apply isDecimal_digits in Hdec.
  destruct s as [|c rest]; [contradiction|].
  unfold strconv.ParseInt, decimalValue in *.
  destruct (strconv.isMinus c) eqn:Hminus.
  - rewrite orb_true_r in *. destruct Hdec as [Hne Hd].
    pose proof (digitsValue_ge rest 0 Hd ltac:(lia)) as Hge.
    rewrite (ParseUint_value rest Hne Hd)
      by (unfold strconv.maxUint64; change (2 ^ 64) with 18446744073709551616; lia).
    change (2 ^ 63) with 9223372036854775808. simpl negb. simpl andb.
    destruct (Z.gtb_spec (digitsValue rest 0) 9223372036854775808); [lia|].
    reflexivity.
  - rewrite orb_false_r in *. destruct (strconv.isPlus c) eqn:Hplus.
    + destruct Hdec as [Hne Hd].
      pose proof (digitsValue_ge rest 0 Hd ltac:(lia)) as Hge.
      rewrite (ParseUint_value rest Hne Hd)
        by (unfold strconv.maxUint64; change (2 ^ 64) with 18446744073709551616; lia).
      change (2 ^ 63) with 9223372036854775808. simpl negb. simpl andb.
      destruct (Z.geb_spec (digitsValue rest 0) 9223372036854775808); [lia|].
      reflexivity.
    + pose proof (digitsValue_ge (String c rest) 0 Hdec ltac:(lia)) as Hge.
      rewrite (ParseUint_value (String c rest) ltac:(discriminate) Hdec)
        by (unfold strconv.maxUint64; change (2 ^ 64) with 18446744073709551616; lia).
      change (2 ^ 63) with 9223372036854775808.
      remember (digitsValue (String c rest) 0) as v. cbn [negb andb].
      destruct (Z.geb_spec v 9223372036854775808); [lia|].
      reflexivity.
Qed.

(** [Atoi] on a decimal numeral whose value an [int] holds. *)
Lemma Atoi_value (s : string) :
  isDecimal s = true -> inInt (decimalValue s) ->
  strconv.Atoi s = (decimalValue s, None).
Proof.
  intros Hdec Hint. unfold strconv.Atoi.
  destruct ((0 <? Z.of_nat (String.length s)) && (Z.of_nat (String.length s) <? 19)).
  - pose proof (isDecimal_digits s Hdec) as Hd.
    destruct s as [|c rest]; [contradiction|].
    unfold decimalValue. rewrite (orb_comm (strconv.isMinus c)).
    destruct (strconv.isPlus c || strconv.isMinus c) eqn:Hsign.
    + destruct Hd as [Hne Hd]. cbn [andb].
      destruct rest as [|c' rest']; [contradiction|].
      replace (Z.of_nat (String.length (String c' rest')) <? 1) with false
        by (symmetry; apply Z.ltb_ge; simpl String.length; lia).
      rewrite (atoiLoop_value _ 0 Hd).
      destruct (strconv.isMinus c) eqn:Hminus; [reflexivity|].
      rewrite orb_false_r in Hsign. rewrite Hsign. reflexivity.
    + cbn [andb]. rewrite (atoiLoop_value _ 0 Hd).
      apply orb_false_iff in Hsign as [-> ->]. reflexivity.
  - rewrite (ParseInt_value s Hdec Hint). reflexivity.
Qed.

Lemma digitsValue_lt (s : string) :
  forall n, allDigits s = true -> 0 <= n ->
            digitsValue s n < (n + 1) * 10 ^ Z.of_nat (String.length s).
Proof.
  induction s as [|c s IH]; intros n; simpl String.length.
  - simpl. lia.
  - intros H Hn. simpl in H. apply andb_true_iff in H as [Hc Hs].
    apply isDigit_value in Hc. simpl digitsValue.
    specialize (IH (n * 10 + (strconv.byte c - 48)) Hs ltac:(lia)).
    rewrite Nat2Z.inj_succ, Z.pow_succ_r by lia.
    pose proof (Z.pow_pos_nonneg 10 (Z.of_nat (String.length s)) ltac:(lia) ltac:(lia)).
    nia.
Qed.

Lemma parseUintLoop_ok_value (s : string) :
  forall n v, 0 <= n < 2 ^ 64 ->
              strconv.parseUintLoop s n = (v, None) ->
              v = digitsValue s n /\ v < 2 ^ 64.
Proof.
  change (2 ^ 64) with 18446744073709551616.
  induction s as [|c s IH]; intros n v Hn; simpl.
  - intros [= <-]. lia.
  - fold (isDigit c). destruct (isDigit c) eqn:Hc; simpl; [|discriminate].
    apply isDigit_value in Hc.
    unfold strconv.maxUint64. change (2 ^ 64) with 18446744073709551616.
    change ((18446744073709551616 - 1) / 10 + 1) with 1844674407370955162.
    destruct (Z.geb_spec n 1844674407370955162) as [Hcut|Hcut]; [discriminate|].
    rewrite (Z.mod_small (n * 10)) by lia.
    destruct (Z.ltb_spec ((n * 10 + (strconv.byte c - 48)) mod 18446744073709551616)
                         (n * 10)) as [Hw|Hw]; [discriminate|].
    destruct (Z.gtb_spec ((n * 10 + (strconv.byte c - 48)) mod 18446744073709551616)
                         (18446744073709551616 - 1)); [discriminate|].
    simpl.
    assert (n * 10 + (strconv.byte c - 48) < 18446744073709551616) as Hfit.
    { destruct (Z.lt_ge_cases (n * 10 + (strconv.byte c - 48)) 18446744073709551616)
        as [|Hbig]; [assumption|exfalso].
      replace (n * 10 + (strconv.byte c - 48))
        with (n * 10 + (strconv.byte c - 48) - 18446744073709551616
              + 1 * 18446744073709551616) in Hw by lia.
      rewrite Z.mod_add in Hw by lia. rewrite Z.mod_small in Hw by lia. lia. }
    rewrite Z.mod_small by lia. apply IH. lia.
Qed.

Lemma Atoi_ok_value (s : string) (n : Z) :
  strconv.Atoi s = (n, None) -> n = decimalValue s /\ inInt n.
Proof.
  intros HA. pose proof (Atoi_ok_decimal s n HA) as Hdec.
  pose proof (isDecimal_digits s Hdec) as Hd.
  unfold inInt. change (2 ^ 63) with 9223372036854775808.
  unfold strconv.Atoi in HA.
  destruct ((0 <? Z.of_nat (String.length s)) && (Z.of_nat (String.length s) <? 19))
    eqn:Hlen.
  - apply andb_true_iff in Hlen as [_ Hlen]. apply Z.ltb_lt in Hlen.
    destruct s as [|c rest]; [contradiction|].
    unfold decimalValue. rewrite (orb_comm (strconv.isMinus c)) in HA.
    simpl String.length in Hlen.
    assert (forall r, allDigits r = true ->
                      (String.length r <= 18)%nat ->
                      0 <= digitsValue r 0 < 1000000000000000000) as Hbound.
    { intros r Hr Hl. pose proof (digitsValue_ge r 0 Hr ltac:(lia)).
      pose proof (digitsValue_lt r 0 Hr ltac:(lia)) as Hlt.
      assert (10 ^ Z.of_nat (String.length r) <= 10 ^ 18)
        by (apply Z.pow_le_mono_r; lia).
      change (10 ^ 18) with 1000000000000000000 in *. lia. }
    destruct (strconv.isPlus c || strconv.isMinus c) eqn:Hsign.
    + destruct Hd as [Hne Hd]. cbn [andb] in HA.
      destruct rest as [|c' rest']; [contradiction|].
      replace (Z.of_nat (String.length (String c' rest')) <? 1) with false in HA
        by (symmetry; apply Z.ltb_ge; simpl String.length; lia).
      rewrite (atoiLoop_value _ 0 Hd) in HA.
      pose proof (Hbound _ Hd ltac:(lia)).
      destruct (strconv.isMinus c) eqn:Hminus.
      * pose proof (f_equal fst HA) as Hn. cbn [fst] in Hn. rewrite <- Hn. lia.
      * rewrite orb_false_r in Hsign. rewrite Hsign.
        pose proof (f_equal fst HA) as Hn. cbn [fst] in Hn. rewrite <- Hn. lia.
    + cbn [andb] in HA. rewrite (atoiLoop_value _ 0 Hd) in HA.
      pose proof (Hbound _ Hd ltac:(simpl; lia)).
      apply orb_false_iff in Hsign as [Hplus Hminus]. rewrite Hplus, Hminus in *.
      pose proof (f_equal fst HA) as Hn. cbn [fst] in Hn. rewrite <- Hn. lia.
  - destruct (strconv.ParseInt s) as [i64 [e|]] eqn:HP; [discriminate|].
    simpl in HA. injection HA as <-.
    destruct s as [|c rest]; [contradiction|].
    unfold strconv.ParseInt in HP. unfold decimalValue.
    destruct (strconv.ParseUint (if strconv.isPlus c || strconv.isMinus c
                                 then rest else String c rest))
      as [un [[|]|]] eqn:HU; [discriminate| |].
    + assert (un = strconv.maxUint64) as ->.
      { destruct (strconv.isPlus c || strconv.isMinus c), rest;
          try discriminate; eapply parseUintLoop_range, HU. }
      destruct (strconv.isMinus c); vm_compute in HP; discriminate.
    + assert (un = digitsValue (if strconv.isPlus c || strconv.isMinus c
                                then rest else String c rest) 0) as Hun.
      { unfold strconv.ParseUint in HU.
        destruct (if strconv.isPlus c || strconv.isMinus c then rest
                  else String c rest) eqn:E; [discriminate|].
        eapply parseUintLoop_ok_value; [|exact HU].
        change (2 ^ 64) with 18446744073709551616. lia. }
      change (2 ^ 63) with 9223372036854775808 in HP.
      destruct (strconv.isMinus c) eqn:Hminus.
      * rewrite orb_true_r in Hun, Hd. cbn [negb andb] in HP.
        destruct Hd as [_ Hd].
        pose proof (digitsValue_ge rest 0 Hd ltac:(lia)).
        destruct (Z.gtb_spec un 9223372036854775808); [discriminate|].
        pose proof (f_equal fst HP) as Hn. cbn [fst] in Hn. rewrite <- Hn.
        subst un. lia.
      * rewrite orb_false_r in Hun, Hd. cbn [negb andb] in HP.
        destruct (Z.geb_spec un 9223372036854775808); [discriminate|].
        pose proof (f_equal fst HP) as Hn. cbn [fst] in Hn. rewrite <- Hn.
        subst un.
        destruct (strconv.isPlus c).
        -- destruct Hd as [_ Hd].
           pose proof (digitsValue_ge rest 0 Hd ltac:(lia)). lia.
        -- pose proof (digitsValue_ge (String c rest) 0 Hd ltac:(lia)). lia.
Qed.

(** [Atoi] returns without error on the decimal numerals whose value an
    [int] holds, and on those alone; what it returns is the value. *)
Lemma Atoi_spec (s : string) (n : Z) :
  strconv.Atoi s = (n, None)
  <-> isDecimal s = true /\ inInt (decimalValue s) /\ n = decimalValue s.
Proof.
  split.
  - intros H. destruct (Atoi_ok_value s n H) as [-> Hi].
    split; [eapply Atoi_ok_decimal, H | auto].
  - intros (Hd & Hi & ->). apply Atoi_value; assumption.
Qed.

Lemma lineSelection_first_fails (c : config) (node : ast.File)
      (part0 : string) (parts : list string) (v : Z) (e : strconv.NumError) :
  lineTokens c = part0 :: parts ->
  strconv.Atoi part0 = (v, Some e) ->
  lineSelection c node = (0, 0, Some (numError e)).
Proof.
  unfold lineTokens, lineSelection. intros -> ->. reflexivity.
Qed.

Lemma lineSelection_two (c : config) (node : ast.File)
      (part0 part1 : string) (N : Z) :
  lineTokens c = [part0; part1] ->
  strconv.Atoi part0 = (N, None) ->
  lineSelection c node =
    match strconv.Atoi part1 with
    | (_, Some e) => (0, 0, Some (numError e))
    | (M, None) => if N >? M then (0, 0, Some wrongRange) else (N, M, None)
    end.
Proof.
  unfold lineTokens, lineSelection. intros -> ->.
  destruct (strconv.Atoi part1) as [M [e|]]; reflexivity.
Qed.

Lemma lineSelection_not_two (c : config) (node : ast.File)
      (part0 : string) (parts : list string) (N : Z) :
  lineTokens c = part0 :: parts ->
  length parts <> 1%nat ->
  strconv.Atoi part0 = (N, None) ->
  lineSelection c node = (N, N, None).
Proof.
  unfold lineTokens, lineSelection. intros -> Hlen ->.
  assert ((N >? N) = false) as HN by (rewrite Z.gtb_ltb; apply Z.ltb_irrefl).
  destruct parts as [|p1 [|p2 ps]]; simpl in *; try congruence;
    rewrite HN; reflexivity.
Qed.

(** [parts[0]] is always there: [Split] returns at least one part. *)
Lemma lineSelection_no_panic (c : config) (node : ast.File) (s : string) :
  snd (lineSelection c node) <> Some (runtimePanic s).
Proof.
  unfold lineSelection.
  destruct (strings.Split (line c) ",") as [|part0 parts] eqn:E.
  - exfalso. exact (Split_not_nil _ _ E).
  - destruct (strconv.Atoi part0) as [n [e|]]; [discriminate|].
    destruct parts as [|part1 [|part2 parts]];
      try (destruct (n >? n); discriminate).
    destruct (strconv.Atoi part1) as [m [e|]]; [discriminate|].
    destruct (n >? m); discriminate.
Qed.

Lemma lineTokens_pair (c : config) (t1 t2 : string) :
  line c = (t1 ++ "," ++ t2)%string ->
  contains "," t1 = false -> contains "," t2 = false ->
  lineTokens c = [t1; t2].
Proof.
  unfold lineTokens. intros -> H1 H2.
  change ("," ++ t2)%string with (String "," t2).
  rewrite (Split_sep _ _ _ H1), (Split_no_sep _ _ H2). reflexivity.
Qed.

(** C7: a line string "N,M" of two decimal numerals with N <= M
    selects (N, M), a line string "N" selects (N, N), and the tree
    handed to the selection has no part in the result. *)
Theorem lineSelection_valid (c : config) (node : ast.File) :
  (forall t1 t2 : string,
      line c = (t1 ++ "," ++ t2)%string ->
      isDecimal t1 = true -> isDecimal t2 = true ->
      inInt (decimalValue t1) -> inInt (decimalValue t2) ->
      decimalValue t1 <= decimalValue t2 ->
      lineSelection c node = (decimalValue t1, decimalValue t2, None))
  /\ (isDecimal (line c) = true -> inInt (decimalValue (line c)) ->
      lineSelection c node
      = (decimalValue (line c), decimalValue (line c), None))
  /\ (forall node' : ast.File, lineSelection c node' = lineSelection c node).
Proof.
  split; [|split].
  - intros t1 t2 Hline Hd1 Hd2 Hi1 Hi2 HNM.
    pose proof (Atoi_value t1 Hd1 Hi1) as H1.
    pose proof (Atoi_value t2 Hd2 Hi2) as H2.
    pose proof (lineTokens_pair c t1 t2 Hline (isDecimal_no_comma _ Hd1)
                  (isDecimal_no_comma _ Hd2)) as Htok.
    rewrite (lineSelection_two c node t1 t2 _ Htok H1), H2.
    replace (decimalValue t1 >? decimalValue t2) with false; [reflexivity|].
    symmetry. rewrite Z.gtb_ltb. apply Z.ltb_ge. exact HNM.
  - intros Hd Hi.
    apply (lineSelection_not_two c node (line c) []);
      [|discriminate|exact (Atoi_value _ Hd Hi)].
    unfold lineTokens. apply Split_no_sep, isDecimal_no_comma, Hd.
  - reflexivity.
Qed.

Lemma lineSelection_valid_witness :
  lineSelection (lineConfig "4,8") emptyFile = (4, 8, None)
  /\ lineSelection (lineConfig "-3") emptyFile = (-3, -3, None).
Proof.
  destruct (lineSelection_valid (lineConfig "4,8") emptyFile) as [H _].
  destruct (lineSelection_valid (lineConfig "-3") emptyFile) as [_ [H' _]].
  split.
  - apply (H "4" "8"); try reflexivity; vm_compute; intuition discriminate.
  - apply H'; [reflexivity | vm_compute; intuition discriminate].
Defined.

(** C10: with more than two tokens, the first of which is a decimal
    numeral N, the selection does not fail and is (N, N), whatever the
    tokens after the first are. *)
Theorem lineSelection_more_than_two
        (c : config) (node : ast.File)
        (part0 part1 part2 : string) (parts : list string) :
  lineTokens c = part0 :: part1 :: part2 :: parts ->
  isDecimal part0 = true -> inInt (decimalValue part0) ->
  lineSelection c node = (decimalValue part0, decimalValue part0, None).
Proof.
  intros Htok Hd Hi.
  apply (lineSelection_not_two c node part0 (part1 :: part2 :: parts));
    [exact Htok | simpl; lia | exact (Atoi_value _ Hd Hi)].
Qed.

Lemma lineSelection_more_than_two_witness :
  lineSelection (lineConfig "4,8,12") emptyFile = (4, 4, None).
Proof.
  apply (lineSelection_more_than_two (lineConfig "4,8,12") emptyFile
           "4" "8" "12" []); [reflexivity | reflexivity |].
  vm_compute. intuition discriminate.
Defined.

Lemma Atoi_error_names (s : string) (v : Z) (e : strconv.NumError) :
  strconv.Atoi s = (v, Some e) ->
  strconv.Func e = "Atoi" /\ strconv.Num e = s.
Proof.
  unfold strconv.Atoi.
  destruct ((0 <? Z.of_nat (String.length s)) && (Z.of_nat (String.length s) <? 19)).
  - destruct s as [|c rest]; [intros [= <- <-]; auto|].
    destruct (_ && _); [intros [= <- <-]; auto|].
    destruct (strconv.atoiLoop _ 0); intros [= <- <-]; auto.
  - destruct (strconv.ParseInt s) as [i64 [err|]]; simpl; intros [= <- <-]; auto.
Qed.

(** A run that fails at the selection leaves the tree as it was
    parsed and hands nothing to [format]. *)
Lemma run_selection_fails (Upper : Z -> bool) (c : config) (node : ast.File)
      (order : list (Z * structType)) (s e : Z) (err : error) :
  validate c = None ->
  findSelection c node order = (s, e, Some err) ->
  run Upper c node order = mkOutcome node None (Some err).
Proof.
  unfold run. intros -> ->. reflexivity.
Qed.

Lemma findSelection_line (c : config) (node : ast.File)
      (order : list (Z * structType)) :
  line c <> EmptyString ->
  findSelection c node order = lineSelection c node.
Proof.
  unfold findSelection. intros H.
  destruct (String.eqb_spec (line c) ""); [contradiction | reflexivity].
Qed.




(** * The walk around the type expressions *)

Lemma Field_eta (f : ast.Field) :
  ast.mkField (ast.Field_Names f) (ast.Field_Type f) (ast.Field_Tag f) = f.
Proof. destruct f; reflexivity. Qed.

Lemma Forall_concat_map {A B} (Q : B -> Prop) (g : A -> list B) (l : list A) :
  Forall Q (concat (map g l)) <-> Forall (fun a => Forall Q (g a)) l.
Proof.
  induction l as [|a l IH]; simpl.
  - split; constructor.
  - rewrite Forall_app, Forall_cons, IH. reflexivity.
Qed.

Lemma Forall_map_iff {A B} (Q : B -> Prop) (g : A -> B) (l : list A) :
  Forall Q (map g l) <-> Forall (fun a => Q (g a)) l.
Proof.
  induction l as [|a l IH]; simpl.
  - split; constructor.
  - rewrite !Forall_cons, IH. reflexivity.
Qed.

Lemma map_id_Forall {A} (g : A -> A) (l : list A) :
  Forall (fun a => g a = a) l -> map g l = l.
Proof.
  induction 1 as [|a l Ha _ IH]; simpl; [reflexivity|]. rewrite Ha, IH. reflexivity.
Qed.

Lemma map_fixed {A B} (Q : B -> Prop) (parts : A -> list B) (g : A -> A)
      (l : list A) :
  (forall a, Forall Q (parts a) -> g a = a) ->
  Forall Q (concat (map parts l)) -> map g l = l.
Proof.
  intros Hg H. apply map_id_Forall. apply Forall_concat_map in H.
  eapply Forall_impl; [exact H|]. exact Hg.
Qed.

Lemma concat_map_map {A B C} (parts : A -> list B) (parts' : A -> list C)
      (g : B -> C) (l : list A) :
  (forall a, parts' a = map g (parts a)) ->
  concat (map parts' l) = map g (concat (map parts l)).
Proof.
  intros H. rewrite concat_map, map_map. f_equal. apply map_ext. exact H.
Qed.

(** What a visit makes of the parts of a file: the type expressions of
    the result are the visited type expressions, and a visit that
    leaves every type expression as it is leaves the file as it is. *)
Section Visit.
Variable visit : ast.Expr -> ast.Expr.

Lemma typeExprs_option (e : option ast.Expr) :
  typeExprsOpt (option_map visit e) = map visit (typeExprsOpt e).
Proof. destruct e; reflexivity. Qed.

Lemma typeExprs_inspectFieldList (l : ast.FieldList) :
  typeExprsFieldList (inspectFieldList visit l)
  = map visit (typeExprsFieldList l).
Proof.
  unfold typeExprsFieldList, inspectFieldList. simpl. rewrite !map_map.
  reflexivity.
Qed.

Lemma typeExprs_inspectValue (v : ast.ValueExpr) :
  typeExprsValue (inspectValue visit v) = map visit (typeExprsValue v).
Proof.
  induction v as [type lbrace elts rbrace IH|x] using ast.ValueExpr_induction;
    simpl; [|reflexivity].
  rewrite typeExprs_option, map_app, map_map. f_equal.
  rewrite concat_map, map_map. f_equal. apply map_ext_Forall, IH.
Qed.

Lemma typeExprs_inspectValues (l : list ast.ValueExpr) :
  concat (map typeExprsValue (map (inspectValue visit) l))
  = map visit (concat (map typeExprsValue l)).
Proof.
  rewrite map_map. apply concat_map_map. exact typeExprs_inspectValue.
Qed.

Lemma typeExprs_inspectSpec (s : ast.Spec) :
  typeExprsSpec (inspectSpec visit s) = map visit (typeExprsSpec s).
Proof.
  destruct s as [name type|name0 names type values]; simpl;
    rewrite typeExprs_option; [reflexivity|].
  rewrite map_app, typeExprs_inspectValues. reflexivity.
Qed.

Lemma typeExprs_inspectStmt (s : ast.Stmt) :
  typeExprsStmt (inspectStmt visit s) = map visit (typeExprsStmt s).
Proof.
  destruct s as [specs|x|lhs rhs|results]; simpl.
  - rewrite map_map. apply concat_map_map. exact typeExprs_inspectSpec.
  - apply typeExprs_inspectValue.
  - rewrite map_app, !typeExprs_inspectValues. reflexivity.
  - apply typeExprs_inspectValues.
Qed.

Lemma typeExprs_inspectDecl (d : ast.Decl) :
  typeExprsDecl (inspectDecl visit d) = map visit (typeExprsDecl d).
Proof.
  destruct d as [specs|recv name params results body]; simpl.
  - rewrite map_map. apply concat_map_map. exact typeExprs_inspectSpec.
  - rewrite !map_app, typeExprs_inspectFieldList.
    apply f_equal2; [|apply f_equal2; [reflexivity|apply f_equal2]].
    + destruct recv; simpl; [apply typeExprs_inspectFieldList | reflexivity].
    + destruct results; simpl; [apply typeExprs_inspectFieldList | reflexivity].
    + destruct body as [b|]; simpl; [|reflexivity].
      rewrite map_map. apply concat_map_map. exact typeExprs_inspectStmt.
Qed.

Lemma typeExprs_inspectFile (node : ast.File) :
  typeExprs (inspectFile visit node) = map visit (typeExprs node).
Proof.
  unfold typeExprs, inspectFile. simpl. rewrite map_map.
  apply concat_map_map. exact typeExprs_inspectDecl.
Qed.

Lemma option_fixed (e : option ast.Expr) :
  Forall (fixedBy visit) (typeExprsOpt e) -> option_map visit e = e.
Proof.
  destruct e as [e|]; simpl; [|reflexivity].
  intros H. apply Forall_cons in H as [-> _]. reflexivity.
Qed.

Lemma inspectFieldList_fixed (l : ast.FieldList) :
  Forall (fixedBy visit) (typeExprsFieldList l) -> inspectFieldList visit l = l.
Proof.
  destruct l as [opening fields closing].
  unfold inspectFieldList, typeExprsFieldList. simpl. intros H. f_equal.
  apply map_id_Forall. apply (proj1 (Forall_map_iff _ _ _)) in H.
  eapply Forall_impl; [exact H|]. intros f Hf. unfold inspectField.
  rewrite Hf. apply Field_eta.
Qed.

Lemma inspectValue_fixed (v : ast.ValueExpr) :
  Forall (fixedBy visit) (typeExprsValue v) -> inspectValue visit v = v.
Proof.
  induction v as [type lbrace elts rbrace IH|x] using ast.ValueExpr_induction;
    simpl; intros H.
  - apply Forall_app in H as [Htype Helts].
    rewrite (option_fixed _ Htype). f_equal.
    apply map_id_Forall. apply Forall_concat_map in Helts.
    rewrite Forall_forall in *. intros v Hv. apply (IH v Hv), (Helts v Hv).
  - apply Forall_cons in H as [-> _]. reflexivity.
Qed.

Lemma inspectSpec_fixed (s : ast.Spec) :
  Forall (fixedBy visit) (typeExprsSpec s) -> inspectSpec visit s = s.
Proof.
  destruct s as [name type|name0 names type values]; simpl; intros H.
  - rewrite (option_fixed _ H). reflexivity.
  - apply Forall_app in H as [Htype Hvalues].
    rewrite (option_fixed _ Htype),
      (map_fixed _ _ _ _ inspectValue_fixed Hvalues). reflexivity.
Qed.

Lemma inspectStmt_fixed (s : ast.Stmt) :
  Forall (fixedBy visit) (typeExprsStmt s) -> inspectStmt visit s = s.
Proof.
  destruct s as [specs|x|lhs rhs|results]; simpl; intros H.
  - rewrite (map_fixed _ _ _ _ inspectSpec_fixed H). reflexivity.
  - rewrite (inspectValue_fixed _ H). reflexivity.
  - apply Forall_app in H as [Hl Hr].
    rewrite (map_fixed _ _ _ _ inspectValue_fixed Hl),
      (map_fixed _ _ _ _ inspectValue_fixed Hr). reflexivity.
  - rewrite (map_fixed _ _ _ _ inspectValue_fixed H). reflexivity.
Qed.

Lemma inspectDecl_fixed (d : ast.Decl) :
  Forall (fixedBy visit) (typeExprsDecl d) -> inspectDecl visit d = d.
Proof.
  destruct d as [specs|recv name params results body]; simpl; intros H.
  - rewrite (map_fixed _ _ _ _ inspectSpec_fixed H). reflexivity.
  - apply Forall_app in H as [Hrecv H]. apply Forall_app in H as [Hparams H].
    apply Forall_app in H as [Hresults Hbody].
    rewrite (inspectFieldList_fixed _ Hparams).
    replace (option_map (inspectFieldList visit) recv) with recv.
    2:{ destruct recv as [l|]; simpl; [|reflexivity].
        rewrite (inspectFieldList_fixed _ Hrecv). reflexivity. }
    replace (option_map (inspectFieldList visit) results) with results.
    2:{ destruct results as [l|]; simpl; [|reflexivity].
        rewrite (inspectFieldList_fixed _ Hresults). reflexivity. }
    replace (option_map (map (inspectStmt visit)) body) with body;
      [reflexivity|].
    destruct body as [b|]; simpl; [|reflexivity].
    rewrite (map_fixed _ _ _ _ inspectStmt_fixed Hbody). reflexivity.
Qed.

Lemma inspectFile_fixed (node : ast.File) :
  Forall (fixedBy visit) (typeExprs node) -> inspectFile visit node = node.
Proof.
  destruct node as [package name decls]. unfold inspectFile, typeExprs. simpl.
  intros H. rewrite (map_fixed _ _ _ _ inspectDecl_fixed H). reflexivity.
Qed.

End Visit.

(** One visit after another is the visit that does both. *)
Section Composed.
Variables first second both : ast.Expr -> ast.Expr.
Hypothesis Hboth : forall e : ast.Expr, second (first e) = both e.

Lemma option_map_map {A B C} (g : B -> C) (h : A -> B) (k : A -> C)
      (x : option A) :
  (forall a, g (h a) = k a) -> option_map g (option_map h x) = option_map k x.
Proof. intros H. destruct x; simpl; [rewrite H|]; reflexivity. Qed.

Lemma map_map_ext {A B C} (g : B -> C) (h : A -> B) (k : A -> C) (l : list A) :
  (forall a, g (h a) = k a) -> map g (map h l) = map k l.
Proof. intros H. rewrite map_map. apply map_ext, H. Qed.

Lemma inspectFieldList_composed (l : ast.FieldList) :
  inspectFieldList second (inspectFieldList first l) = inspectFieldList both l.
Proof.
  unfold inspectFieldList. simpl. f_equal.
  apply map_map_ext. intros f. unfold inspectField. simpl.
  rewrite Hboth. reflexivity.
Qed.

Lemma inspectValue_composed (v : ast.ValueExpr) :
  inspectValue second (inspectValue first v) = inspectValue both v.
Proof.
  induction v as [type lbrace elts rbrace IH|x] using ast.ValueExpr_induction;
    simpl.
  - rewrite (option_map_map _ _ _ type Hboth). f_equal.
    rewrite map_map. apply map_ext_Forall, IH.
  - rewrite Hboth. reflexivity.
Qed.

Lemma inspectSpec_composed (s : ast.Spec) :
  inspectSpec second (inspectSpec first s) = inspectSpec both s.
Proof.
  destruct s as [name type|name0 names type values]; simpl;
    rewrite (option_map_map _ _ _ type Hboth); [reflexivity|].
  rewrite (map_map_ext _ _ _ values inspectValue_composed). reflexivity.
Qed.

Lemma inspectStmt_composed (s : ast.Stmt) :
  inspectStmt second (inspectStmt first s) = inspectStmt both s.
Proof.
  destruct s as [specs|x|lhs rhs|results]; simpl;
    rewrite ?(map_map_ext _ _ _ _ inspectSpec_composed),
      ?(map_map_ext _ _ _ _ inspectValue_composed), ?inspectValue_composed;
    reflexivity.
Qed.

Lemma inspectDecl_composed (d : ast.Decl) :
  inspectDecl second (inspectDecl first d) = inspectDecl both d.
Proof.
  destruct d as [specs|recv name params results body]; simpl.
  - rewrite (map_map_ext _ _ _ _ inspectSpec_composed). reflexivity.
  - rewrite inspectFieldList_composed,
      !(option_map_map _ _ _ _ inspectFieldList_composed).
    f_equal. apply option_map_map. intros b.
    apply map_map_ext, inspectStmt_composed.
Qed.

Lemma inspectFile_composed (node : ast.File) :
  inspectFile second (inspectFile first node) = inspectFile both node.
Proof.
  unfold inspectFile. simpl. f_equal.
  apply map_map_ext, inspectDecl_composed.
Qed.

End Composed.

Lemma inspectFile_id (node : ast.File) : inspectFile (fun e => e) node = node.
Proof.
  apply inspectFile_fixed. apply Forall_forall. reflexivity.
Qed.

(** Visits that agree on every type expression agree on the file. *)
Lemma inspectFile_ext (g h : ast.Expr -> ast.Expr) (node : ast.File) :
  (forall e, g e = h e) -> inspectFile g node = inspectFile h node.
Proof.
  intros H. rewrite <- (inspectFile_id (inspectFile g node)).
  apply inspectFile_composed. exact H.
Qed.

(** * The rewrite *)

Section Rewrite.
Variable Upper : Z -> bool.
Variable c : config.
Variables start end_ : Z.

Lemma rewriteFuncField_selected (f : ast.Field) :
  rewriteFuncField Upper c start end_ f =
    if selected Upper c start end_ f then Some (toIdent c) else None.
Proof.
  unfold rewriteFuncField, selected, inSpan, named, spelledFrom, toIdent.
  destruct ((start <=? Line c (ast.Field_Pos f))
            && (Line c (ast.Field_Pos f) <=? end_)); simpl; [|reflexivity].
  destruct (fieldNameOf Upper c f) as [fieldName|]; simpl; [|reflexivity].
  destruct (String.eqb fieldName ""); simpl; [reflexivity|].
  destruct (String.eqb _ (from c)); reflexivity.
Qed.

Lemma rewriteExpr_struct (struct opening : token.Pos) (list : list ast.Field)
      (closing : token.Pos) :
  rewriteExpr Upper c start end_ (ast.StructType struct opening list closing)
  = ast.StructType struct opening
      (map (rewriteStructField Upper c start end_) list) closing.
Proof.
  simpl. f_equal. apply map_ext. intros f. unfold rewriteStructField.
  rewrite rewriteFuncField_selected. destruct (selected _ _ _ _ f); reflexivity.
Qed.

(** Where no field is selected the walk changes nothing. *)
Lemma rewriteExpr_none_selected (e : ast.Expr) :
  Forall (fun f => selected Upper c start end_ f = false) (structFieldsExpr e) ->
  rewriteExpr Upper c start end_ e = e.
Proof.
  induction e as [x|x|star x IH|lbrack len elt IHlen IHelt|x sel IH
                  |map key value IHkey IHvalue|struct opening list closing IH]
    using ast.Expr_induction; intros H.
  - reflexivity.
  - reflexivity.
  - simpl in *. rewrite (IH H). reflexivity.
  - simpl in *. apply Forall_app in H as [Hlen Helt]. rewrite (IHelt Helt).
    destruct len as [l|]; simpl; [rewrite (IHlen Hlen)|]; reflexivity.
  - simpl in *. rewrite (IH H). reflexivity.
  - simpl in *. apply Forall_app in H as [Hkey Hvalue].
    rewrite (IHkey Hkey), (IHvalue Hvalue). reflexivity.
  - rewrite rewriteExpr_struct. f_equal. apply map_id_Forall.
    simpl in H. apply Forall_concat_map in H.
    rewrite Forall_forall in *. intros f Hf.
    specialize (H f Hf). specialize (IH f Hf).
    apply Forall_cons in H as [Hsel Hin].
    unfold rewriteStructField. rewrite Hsel, (IH Hin). apply Field_eta.
Qed.


Lemma rewriteFile_none_selected (node : ast.File) :
  Forall (fun f => selected Upper c start end_ f = false) (structFields node) ->
  rewriteFile Upper c start end_ node = node.
Proof.
  intros H. apply inspectFile_fixed. apply Forall_concat_map in H.
  eapply Forall_impl; [exact H|]. intros e. apply rewriteExpr_none_selected.
Qed.

End Rewrite.

(** ** The fields the walk reaches *)

Section Reached.
Variable Upper : Z -> bool.
Variable c : config.
Variables start end_ : Z.

(** A field the walk reaches is a field of the expression. *)
Lemma reachedExpr_fields (e : ast.Expr) (g : ast.Field) :
  In g (reachedFieldsExpr Upper c start end_ e) -> In g (structFieldsExpr e).
Proof.
  induction e as [x|x|star x IH|lbrack len elt IHlen IHelt|x sel IH
                  |map key value IHkey IHvalue|struct opening fields closing IH]
    using ast.Expr_induction; simpl; intros Hg; auto.
  - apply in_or_app. apply in_app_or in Hg as [Hg|Hg]; [left|right; auto].
    destruct len; [auto | contradiction].
  - apply in_or_app. apply in_app_or in Hg as [Hg|Hg]; auto.
  - apply in_concat in Hg as (part & Hpart & Hg).
    apply in_map_iff in Hpart as (f & <- & Hf).
    apply in_concat. eexists. split; [apply in_map_iff; exists f; split;
                                       [reflexivity | exact Hf]|].
    destruct Hg as [<-|Hg]; [left; reflexivity | right].
    destruct (selected Upper c start end_ f); [contradiction|].
    rewrite Forall_forall in IH.
    apply (IH f (proj2 (list_elem_of_In _ _) Hf) Hg).
Qed.

(** A field of the expression that the walk does not reach lies inside
    the type of a selected field that the walk reaches. *)
Lemma unreachedExpr_enclosed (e : ast.Expr) (g : ast.Field) :
  In g (structFieldsExpr e) ->
  In g (reachedFieldsExpr Upper c start end_ e)
  \/ exists f : ast.Field,
      In f (reachedFieldsExpr Upper c start end_ e)
      /\ selected Upper c start end_ f = true
      /\ In g (structFieldsExpr (ast.Field_Type f)).
Proof.
  induction e as [x|x|star x IH|lbrack len elt IHlen IHelt|x sel IH
                  |map key value IHkey IHvalue|struct opening fields closing IH]
    using ast.Expr_induction; simpl; intros Hg; auto.
  - apply in_app_or in Hg as [Hg|Hg].
    + destruct len as [l|]; [|contradiction].
      destruct (IHlen Hg) as [H|(f & Hf & Hsel & Hin)].
      * left. apply in_or_app. left. exact H.
      * right. exists f. split; [apply in_or_app; left; exact Hf|]. auto.
    + destruct (IHelt Hg) as [H|(f & Hf & Hsel & Hin)].
      * left. apply in_or_app. right. exact H.
      * right. exists f. split; [apply in_or_app; right; exact Hf|]. auto.
  - apply in_app_or in Hg as [Hg|Hg].
    + destruct (IHkey Hg) as [H|(f & Hf & Hsel & Hin)].
      * left. apply in_or_app. left. exact H.
      * right. exists f. split; [apply in_or_app; left; exact Hf|]. auto.
    + destruct (IHvalue Hg) as [H|(f & Hf & Hsel & Hin)].
      * left. apply in_or_app. right. exact H.
      * right. exists f. split; [apply in_or_app; right; exact Hf|]. auto.
  - apply in_concat in Hg as (part & Hpart & Hg).
    apply in_map_iff in Hpart as (f & <- & Hf).
    assert (forall h : ast.Field,
               In h (f :: if selected Upper c start end_ f then []
                          else reachedFieldsExpr Upper c start end_
                                                 (ast.Field_Type f)) ->
               In h (concat
                       (List.map
                          (fun f0 =>
                             f0 :: if selected Upper c start end_ f0 then []
                                   else reachedFieldsExpr Upper c start end_
                                                          (ast.Field_Type f0))
                          fields))) as Hpart.
    { intros h Hh. apply in_concat. eexists.
      split; [apply in_map_iff; exists f; split; [reflexivity | exact Hf]|].
      exact Hh. }
    destruct Hg as [<-|Hg]; [left; apply Hpart; left; reflexivity|].
    destruct (selected Upper c start end_ f) eqn:Hsel.
    + right. exists f. split; [apply Hpart; left; reflexivity|]. auto.
    + rewrite Forall_forall in IH.
      destruct (IH f (proj2 (list_elem_of_In _ _) Hf) Hg)
        as [H|(f' & Hf' & Hsel' & Hin)].
      * left. apply Hpart. right. exact H.
      * right. exists f'. split; [apply Hpart; right; exact Hf'|]. auto.
Qed.

Lemma reached_fields (node : ast.File) (g : ast.Field) :
  In g (reachedFields Upper c start end_ node) -> In g (structFields node).
Proof.
  unfold structFields, reachedFields. intros Hg.
  apply in_concat in Hg as (part & Hpart & Hg).
  apply in_map_iff in Hpart as (e & <- & He).
  apply in_concat. eexists. split; [apply in_map_iff; exists e; split;
                                     [reflexivity | exact He]|].
  apply reachedExpr_fields. exact Hg.
Qed.

Lemma unreached_enclosed (node : ast.File) (g : ast.Field) :
  In g (structFields node) ->
  In g (reachedFields Upper c start end_ node)
  \/ exists f : ast.Field,
      In f (reachedFields Upper c start end_ node)
      /\ selected Upper c start end_ f = true
      /\ In g (structFieldsExpr (ast.Field_Type f)).
Proof.
  unfold structFields, reachedFields. intros Hg.
  apply in_concat in Hg as (part & Hpart & Hg).
  apply in_map_iff in Hpart as (e & <- & He).
  assert (forall h : ast.Field,
             In h (reachedFieldsExpr Upper c start end_ e) ->
             In h (concat (List.map (reachedFieldsExpr Upper c start end_)
                                    (typeExprs node)))) as Hpart.
  { intros h Hh. apply in_concat. eexists.
    split; [apply in_map_iff; exists e; split; [reflexivity | exact He]|].
    exact Hh. }
  destruct (unreachedExpr_enclosed e g Hg) as [H|(f & Hf & Hsel & Hin)].
  - left. apply Hpart. exact H.
  - right. exists f. split; [apply Hpart; exact Hf|]. auto.
Qed.

(** The fields of the rewritten tree are what the rewrite makes of the
    fields it reaches, one for one and in their order. *)
Lemma structFields_rewriteExpr (e : ast.Expr) :
  structFieldsExpr (rewriteExpr Upper c start end_ e)
  = map (rewriteStructField Upper c start end_)
        (reachedFieldsExpr Upper c start end_ e).
Proof.
  induction e as [x|x|star x IH|lbrack len elt IHlen IHelt|x sel IH
                  |map key value IHkey IHvalue|struct opening fields closing IH]
    using ast.Expr_induction; try reflexivity; try exact IH.
  - simpl. rewrite map_app, IHelt. f_equal.
    destruct len; simpl; [exact IHlen | reflexivity].
  - simpl. rewrite map_app, IHkey, IHvalue. reflexivity.
  - rewrite rewriteExpr_struct. simpl. rewrite concat_map, !map_map.
    f_equal. apply map_ext_Forall. eapply Forall_impl; [exact IH|].
    intros f Hf. simpl. f_equal.
    destruct (selected Upper c start end_ f) eqn:Hsel;
      unfold rewriteStructField at 1; rewrite Hsel; simpl;
      [reflexivity | exact Hf].
Qed.

Lemma structFields_rewriteFile (node : ast.File) :
  structFields (rewriteFile Upper c start end_ node)
  = map (rewriteStructField Upper c start end_)
        (reachedFields Upper c start end_ node).
Proof.
  unfold structFields, reachedFields, rewriteFile.
  rewrite typeExprs_inspectFile, map_map.
  apply concat_map_map. exact structFields_rewriteExpr.
Qed.

End Reached.




(** * The representative name *)

Lemma isPublicName_ascii (Upper : Z -> bool) (ch : ascii) (rest : string) :
  unicode.byte ch < 128 ->
  isPublicName Upper (String ch rest)
  = (65 <=? unicode.byte ch) && (unicode.byte ch <=? 90).
Proof.
  intros H. unfold isPublicName, unicode.firstRune.
  destruct (Z.ltb_spec (unicode.byte ch) 128) as [_|]; [|lia].
  unfold unicode.IsUpper, unicode.MaxLatin1, unicode.latin1Upper.
  destruct (Z.leb_spec (unicode.byte ch) 255) as [_|]; [|lia].
  destruct (Z.leb_spec 192 (unicode.byte ch)), (Z.leb_spec 216 (unicode.byte ch));
    lia.
Qed.

Lemma find_first {A} (p : A -> bool) (pre : list A) (x : A) (post : list A) :
  Forall (fun y => p y = false) pre -> p x = true ->
  List.find p (pre ++ x :: post) = Some x.
Proof.
  induction 1 as [|y pre Hy _ IH]; simpl; intros Hx.
  - rewrite Hx. reflexivity.
  - rewrite Hy. apply IH, Hx.
Qed.

Lemma find_none_Forall {A} (p : A -> bool) (l : list A) :
  Forall (fun y => p y = false) l -> List.find p l = None.
Proof.
  induction 1 as [|y l Hy _ IH]; simpl; [reflexivity|]. rewrite Hy. exact IH.
Qed.

(** The first name of a group that passes the filter. *)
Lemma fieldNameOf_names (Upper : Z -> bool) (c : config) (f : ast.Field)
      (pre : list ast.Ident) (n : ast.Ident) (post : list ast.Ident) :
  ast.Field_Names f = pre ++ n :: post ->
  Forall (fun m => negb (skipUnexportedFields c)
                   || isPublicName Upper (ast.Name m) = false) pre ->
  negb (skipUnexportedFields c) || isPublicName Upper (ast.Name n) = true ->
  fieldNameOf Upper c f = Some (ast.Name n).
Proof.
  intros Hnames Hpre Hn. unfold fieldNameOf. rewrite Hnames.
  rewrite (find_first _ pre n post Hpre Hn).
  destruct pre; reflexivity.
Qed.



(** C9: a field with names that lies in the span and is spelled [from]
    is rewritten as soon as one name passes the policy: the first name
    when nothing is filtered, some name that [isPublicName] accepts
    otherwise.  The one type of the group is replaced and the names
    stay, the unexported ones with the others. *)
Theorem shared_type_rewritten
        (Upper : Z -> bool) (c : config) (start end_ : Z) (f : ast.Field) :
  inSpan c start end_ f = true ->
  spelledFrom c f = true ->
  (skipUnexportedFields c = false
   /\ exists (n : ast.Ident) (rest : list ast.Ident),
       ast.Field_Names f = n :: rest /\ ast.Name n <> EmptyString)
  \/ (skipUnexportedFields c = true
      /\ Exists (fun n => isPublicName Upper (ast.Name n) = true)
                (ast.Field_Names f)) ->
  rewriteFuncField Upper c start end_ f = Some (toIdent c)
  /\ forall (struct opening closing : token.Pos) (before after : list ast.Field),
      rewriteExpr Upper c start end_
        (ast.StructType struct opening (before ++ f :: after) closing)
      = ast.StructType struct opening
          (map (rewriteStructField Upper c start end_) before
             ++ ast.mkField (ast.Field_Names f) (toIdent c) (ast.Field_Tag f)
             :: map (rewriteStructField Upper c start end_) after)
          closing.
Proof.
  intros Hspan Hspelled Hpolicy.
  assert (selected Upper c start end_ f = true) as Hsel.
  { unfold selected. rewrite Hspan, Hspelled, !andb_true_r. unfold named.
    destruct Hpolicy as [(Hskip & n & rest & Hnames & Hne)|(Hskip & Hex)].
    - rewrite (fieldNameOf_names Upper c f [] n rest Hnames);
        [|constructor|rewrite Hskip; reflexivity].
      destruct (String.eqb_spec (ast.Name n) ""); [contradiction | reflexivity].
    - assert (exists pre n post,
                 ast.Field_Names f = pre ++ n :: post
                 /\ Forall (fun m => isPublicName Upper (ast.Name m) = false) pre
                 /\ isPublicName Upper (ast.Name n) = true)
        as (pre & n & post & Hnames & Hpre & Hn).
      { clear -Hex. induction Hex as [n l Hn|m l _ IH].
        - exists [], n, l. repeat split; [constructor | exact Hn].
        - destruct (isPublicName Upper (ast.Name m)) eqn:Hm.
          + exists [], m, l. repeat split; [constructor | exact Hm].
          + destruct IH as (pre & n & post & -> & Hpre & Hn).
            exists (m :: pre), n, post. repeat split; [constructor; auto | exact Hn]. }
      rewrite (fieldNameOf_names Upper c f pre n post Hnames).
      + destruct (String.eqb_spec (ast.Name n) "") as [E|]; [|reflexivity].
        rewrite E in Hn. discriminate.
      + eapply Forall_impl; [exact Hpre|]. intros m Hm. rewrite Hskip, Hm. reflexivity.
      + rewrite Hskip, Hn. reflexivity. }
  split.
  - rewrite rewriteFuncField_selected, Hsel. reflexivity.
  - intros struct opening closing before after.
    rewrite rewriteExpr_struct, map_app. simpl.
    unfold rewriteStructField at 2. rewrite Hsel. reflexivity.
Qed.

Lemma shared_type_rewritten_witness :
  rewriteExpr (fun _ => false) (groupConfig true) 4 4
    (ast.StructType 24 31 [groupField] 54)
  = ast.StructType 24 31
      [ast.mkField [ast.mkIdent 34 "a"; ast.mkIdent 37 "B"]
                   (ast.IdentExpr (ast.NewIdent "int64")) None]
      54.
Proof.
  refine (proj2 (shared_type_rewritten (fun _ => false) (groupConfig true) 4 4
                   groupField eq_refl eq_refl _) 24 31 54 [] []).
  right. split; [reflexivity|]. right. left. reflexivity.
Defined.

(** * Running the rewrite twice *)

Lemma hasPrefix_app (p s : string) : hasPrefix p (p ++ s) = true.
Proof.
  induction p as [|a p IH]; simpl; [reflexivity|].
  rewrite Ascii.eqb_refl. exact IH.
Qed.

Lemma hasPrefix_app_l (p s t : string) :
  hasPrefix p s = true -> hasPrefix p (s ++ t) = true.
Proof.
  revert s. induction p as [|a p IH]; intros s; simpl; [reflexivity|].
  destruct s as [|b s]; simpl; [discriminate|].
  intros H. apply andb_true_iff in H as [Hab Hp].
  rewrite Hab, (IH _ Hp). reflexivity.
Qed.

Lemma hasInfix_app_l (p s t : string) :
  hasInfix p s = true -> hasInfix p (s ++ t) = true.
Proof.
  induction s as [|b s IH]; simpl.
  - rewrite orb_false_r. intros H. destruct p; [|discriminate].
    destruct t; reflexivity.
  - intros H. apply orb_true_iff in H as [H|H].
    + change (String b (s ++ t)) with (String b s ++ t)%string.
      rewrite (hasPrefix_app_l _ _ t H). reflexivity.
    + rewrite (IH H). apply orb_true_r.
Qed.

Lemma hasInfix_app_r (p s t : string) :
  hasInfix p t = true -> hasInfix p (s ++ t) = true.
Proof.
  intros H. induction s as [|b s IH]; simpl; [exact H|].
  rewrite IH. apply orb_true_r.
Qed.

Lemma hasInfix_prefix (p s : string) : hasInfix p (p ++ s) = true.
Proof.
  destruct (p ++ s)%string eqn:E; simpl; rewrite <- E, hasPrefix_app; reflexivity.
Qed.

(** The spelling of an expression that holds a struct type holds the
    text "struct{". *)
Lemma hasStruct_spelling (e : ast.Expr) :
  hasStruct e = true -> hasInfix "struct{" (types.ExprString e) = true.
Proof.
  unfold types.ExprString.
  induction e as [x|x|star x IH|lbrack len elt IHlen IHelt|x sel IH
                  |map key value IHkey IHvalue|struct opening fields closing IH]
    using ast.Expr_induction; simpl hasStruct; intros H; try discriminate.
  - apply (hasInfix_app_r _ "*"), IH, H.
  - change (types.WriteExpr (ast.ArrayType lbrack len elt))
      with ("[" ++ (match len with Some l => types.WriteExpr l | None => "" end
                    ++ "]" ++ types.WriteExpr elt))%string.
    apply hasInfix_app_r. apply orb_true_iff in H as [H|H].
    + destruct len as [l|]; [|discriminate]. apply hasInfix_app_l, IHlen, H.
    + apply hasInfix_app_r, (hasInfix_app_r _ "]"), IHelt, H.
  - change (types.WriteExpr (ast.SelectorExpr x sel))
      with (types.WriteExpr x ++ "." ++ ast.Name sel)%string.
    apply hasInfix_app_l, IH, H.
  - change (types.WriteExpr (ast.MapType map key value))
      with ("map[" ++ (types.WriteExpr key ++ "]" ++ types.WriteExpr value))%string.
    apply hasInfix_app_r. apply orb_true_iff in H as [H|H].
    + apply hasInfix_app_l, IHkey, H.
    + apply hasInfix_app_r, (hasInfix_app_r _ "]"), IHvalue, H.
  - apply (hasInfix_prefix "struct{").
Qed.

Lemma hasStruct_no_fields (e : ast.Expr) :
  hasStruct e = false -> structFieldsExpr e = [].
Proof.
  induction e as [x|x|star x IH|lbrack len elt IHlen IHelt|x sel IH
                  |map key value IHkey IHvalue|struct opening fields closing IH]
    using ast.Expr_induction; simpl; intros H; auto; try discriminate.
  - apply orb_false_iff in H as [Hl He]. rewrite (IHelt He), app_nil_r.
    destruct len; auto.
  - apply orb_false_iff in H as [Hk Hv]. rewrite (IHkey Hk), (IHvalue Hv).
    reflexivity.
Qed.

Section Twice.
Variable Upper : Z -> bool.
Variable c : config.
Variables start end_ : Z.

Lemma rewriteExpr_no_struct (e : ast.Expr) :
  hasStruct e = false -> rewriteExpr Upper c start end_ e = e.
Proof.
  intros H. apply rewriteExpr_none_selected.
  rewrite (hasStruct_no_fields e H). constructor.
Qed.

Lemma hasStruct_rewriteExpr (e : ast.Expr) :
  hasStruct (rewriteExpr Upper c start end_ e) = hasStruct e.
Proof.
  induction e as [x|x|star x IH|lbrack len elt IHlen IHelt|x sel IH
                  |map key value IHkey IHvalue|struct opening fields closing IH]
    using ast.Expr_induction; simpl; auto.
  - rewrite IHelt. destruct len; simpl; [rewrite IHlen|]; reflexivity.
  - rewrite IHkey, IHvalue. reflexivity.
Qed.

Lemma Expr_Pos_rewriteExpr (e : ast.Expr) :
  ast.Expr_Pos (rewriteExpr Upper c start end_ e) = ast.Expr_Pos e.
Proof.
  induction e as [x|x|star x IH|lbrack len elt IHlen IHelt|x sel IH
                  |map key value IHkey IHvalue|struct opening fields closing IH]
    using ast.Expr_induction; simpl; auto.
Qed.

(** The walk through a type leaves the line and the name of its field
    as they were. *)
Lemma inSpan_walked (names : list ast.Ident) (type : ast.Expr)
      (tag : option ast.BasicLit) :
  inSpan c start end_ (ast.mkField names (rewriteExpr Upper c start end_ type) tag)
  = inSpan c start end_ (ast.mkField names type tag).
Proof.
  unfold inSpan, ast.Field_Pos. simpl.
  destruct names; [rewrite Expr_Pos_rewriteExpr|]; reflexivity.
Qed.

Lemma named_walked (names : list ast.Ident) (type : ast.Expr)
      (tag : option ast.BasicLit) :
  named Upper c (ast.mkField names (rewriteExpr Upper c start end_ type) tag)
  = named Upper c (ast.mkField names type tag).
Proof.
  unfold named, fieldNameOf. simpl. destruct names; [|reflexivity].
  destruct type; reflexivity.
Qed.

(** With [from] and [to] the same text the rewrite keeps every
    spelling. *)
Lemma ExprString_rewriteExpr (e : ast.Expr) :
  from c = to c ->
  types.ExprString (rewriteExpr Upper c start end_ e) = types.ExprString e.
Proof.
  intros Hsame. unfold types.ExprString.
  induction e as [x|x|star x IH|lbrack len elt IHlen IHelt|x sel IH
                  |map key value IHkey IHvalue|struct opening fields closing IH]
    using ast.Expr_induction; try reflexivity.
  - simpl. rewrite IH. reflexivity.
  - simpl. rewrite IHelt. destruct len; simpl; [rewrite IHlen|]; reflexivity.
  - simpl. rewrite IH. reflexivity.
  - simpl. rewrite IHkey, IHvalue. reflexivity.
  - rewrite rewriteExpr_struct. simpl. do 3 f_equal. rewrite map_map.
    apply map_ext_Forall. rewrite Forall_forall in *. intros f Hf.
    unfold rewriteStructField.
    destruct (selected Upper c start end_ f) eqn:Hsel; simpl.
    + do 2 f_equal. unfold selected, spelledFrom, types.ExprString in Hsel.
      apply andb_true_iff in Hsel as [_ Hsp]. apply String.eqb_eq in Hsp.
      rewrite Hsp. symmetry. exact Hsame.
    + rewrite (IH f Hf). reflexivity.
Qed.

(** What makes a second run find nothing new: [from] and [to] are the
    same text, or [from] is not the spelling of anything that holds a
    struct type. *)
Hypothesis Hstable : from c = to c \/ hasInfix "struct{" (from c) = false.

Lemma selected_walked (f : ast.Field) :
  selected Upper c start end_ f = false ->
  selected Upper c start end_
    (ast.mkField (ast.Field_Names f)
                 (rewriteExpr Upper c start end_ (ast.Field_Type f))
                 (ast.Field_Tag f)) = false.
Proof.
  destruct f as [names type tag]. simpl. intros Hsel.
  destruct (hasStruct type) eqn:Hs.
  2:{ rewrite (rewriteExpr_no_struct type Hs). exact Hsel. }
  destruct Hstable as [Hsame|Hplain].
  - unfold selected in *. rewrite inSpan_walked, named_walked.
    unfold spelledFrom in *. simpl in *.
    rewrite (ExprString_rewriteExpr type Hsame). exact Hsel.
  - unfold selected, spelledFrom. simpl.
    destruct (String.eqb_spec
                (types.ExprString (rewriteExpr Upper c start end_ type)) (from c))
      as [E|]; [|apply andb_false_r].
    rewrite <- (hasStruct_rewriteExpr type) in Hs.
    apply hasStruct_spelling in Hs. rewrite E in Hs. congruence.
Qed.

Lemma rewriteStructField_twice (f : ast.Field) :
  rewriteExpr Upper c start end_
    (rewriteExpr Upper c start end_ (ast.Field_Type f))
  = rewriteExpr Upper c start end_ (ast.Field_Type f) ->
  rewriteStructField Upper c start end_ (rewriteStructField Upper c start end_ f)
  = rewriteStructField Upper c start end_ f.
Proof.
  intros IH. unfold rewriteStructField.
  destruct (selected Upper c start end_ f) eqn:Hsel.
  - simpl. destruct (selected Upper c start end_ (ast.mkField _ _ _)); reflexivity.
  - rewrite (selected_walked f Hsel). simpl. rewrite IH. reflexivity.
Qed.

Lemma rewriteExpr_twice (e : ast.Expr) :
  rewriteExpr Upper c start end_ (rewriteExpr Upper c start end_ e)
  = rewriteExpr Upper c start end_ e.
Proof.
  induction e as [x|x|star x IH|lbrack len elt IHlen IHelt|x sel IH
                  |map key value IHkey IHvalue|struct opening fields closing IH]
    using ast.Expr_induction; try reflexivity.
  - simpl. rewrite IH. reflexivity.
  - simpl. rewrite IHelt. destruct len; simpl; [rewrite IHlen|]; reflexivity.
  - simpl. rewrite IH. reflexivity.
  - simpl. rewrite IHkey, IHvalue. reflexivity.
  - rewrite !rewriteExpr_struct. f_equal. rewrite map_map.
    apply map_ext_Forall. eapply Forall_impl; [exact IH|].
    intros f. apply rewriteStructField_twice.
Qed.

End Twice.


(** The span kept in the config has no part in the rewrite. *)
Lemma rewriteExpr_setSpan (Upper : Z -> bool) (c : config) (a b start end_ : Z)
      (e : ast.Expr) :
  rewriteExpr Upper (setSpan c a b) start end_ e = rewriteExpr Upper c start end_ e.
Proof.
  induction e as [x|x|star x IH|lbrack len elt IHlen IHelt|x sel IH
                  |map key value IHkey IHvalue|struct opening fields closing IH]
    using ast.Expr_induction; simpl; try reflexivity.
  - rewrite IH. reflexivity.
  - rewrite IHelt. destruct len; simpl; [rewrite IHlen|]; reflexivity.
  - rewrite IH. reflexivity.
  - rewrite IHkey, IHvalue. reflexivity.
  - f_equal. apply map_ext_Forall. eapply Forall_impl; [exact IH|].
    intros f Hf. simpl in Hf.
    change (rewriteFuncField Upper (setSpan c a b) start end_ f)
      with (rewriteFuncField Upper c start end_ f).
    rewrite Hf. reflexivity.
Qed.

(** C4, amended: when [from] and [to] are the same text, or [from]
    does not hold the text "struct{", a second run of the rewrite over
    the same span on the tree the first run has left changes nothing:
    the tree, and with it what is printed, is that of the first run. *)
Theorem rewrite_twice (Upper : Z -> bool) (c : config) (node : ast.File)
        (start end_ : Z) :
  from c = to c \/ hasInfix "struct{" (from c) = false ->
  forall (c1 : config) (node1 : ast.File),
    rewrite Upper c node start end_ = (c1, node1, None) ->
    rewrite Upper c1 node1 start end_ = (c1, node1, None).
Proof.
  intros Hstable c1 node1 [= <- <-]. unfold rewrite. f_equal. f_equal.
  unfold rewriteFile.
  rewrite (inspectFile_ext _ (rewriteExpr Upper c start end_));
    [|intros e; apply rewriteExpr_setSpan].
  apply inspectFile_composed. intros e.
  apply rewriteExpr_twice, Hstable.
Qed.

Lemma rewrite_twice_witness :
  rewrite (fun _ => false) (setSpan fooConfig 4 4) fooRewritten 4 4
  = (setSpan fooConfig 4 4, fooRewritten, None).
Proof.
  apply (rewrite_twice (fun _ => false) fooConfig fooFile 4 4).
  - right. reflexivity.
  - reflexivity.
Defined.

(** C4 as stated fails where struct types are nested: the first run
    turns the type of [x] into "struct{a T}", which is [from], and the
    second run replaces it. *)
Lemma rewrite_twice_nested :
  allSelection nestedConfig nestedFile = (1, 5, None)
  /\ rewrite (fun _ => false) nestedConfig nestedFile 1 5
     = (setSpan nestedConfig 1 5, nestedOnce, None)
  /\ rewrite (fun _ => false) (setSpan nestedConfig 1 5) nestedOnce 1 5
     = (setSpan nestedConfig 1 5, nestedTwice, None)
  /\ nestedOnce <> nestedTwice.
Proof.
  repeat split. discriminate.
Qed.

(** * Struct and field selection *)

(** A loop that keeps the last element it accepts. *)
Lemma fold_left_keep {A B} (p : A -> bool) (g : A -> B) (l : list A)
      (init : option B) :
  Forall (fun y => p y = false) l ->
  fold_left (fun enc y => if p y then Some (g y) else enc) l init = init.
Proof.
  intros H. revert init. induction H as [|y l Hy _ IH]; intros init; simpl;
    [reflexivity|]. rewrite Hy. apply IH.
Qed.

Lemma fold_left_last {A B} (p : A -> bool) (g : A -> B)
      (pre : list A) (x : A) (post : list A) (init : option B) :
  p x = true -> Forall (fun y => p y = false) post ->
  fold_left (fun enc y => if p y then Some (g y) else enc) (pre ++ x :: post) init
  = Some (g x).
Proof.
  intros Hx Hpost. rewrite fold_left_app. simpl. rewrite Hx.
  apply fold_left_keep, Hpost.
Qed.

(** The last element of a list that [p] accepts, when there is one. *)
Lemma last_accepted {A} (p : A -> bool) (l : list A) :
  Exists (fun y => p y = true) l ->
  exists pre x post,
    l = pre ++ x :: post /\ p x = true /\ Forall (fun y => p y = false) post.
Proof.
  induction l as [|a l IH]; intros H; [inversion H|].
  destruct (existsb p l) eqn:E.
  - destruct IH as (pre & x & post & -> & Hx & Hpost).
    { apply existsb_exists in E as (y & Hy & Hpy).
      apply Exists_exists. exists y. split; [apply list_elem_of_In|]; assumption. }
    exists (a :: pre), x, post. auto.
  - assert (Forall (fun y => p y = false) l) as Hl.
    { apply Forall_forall. intros y Hy. apply list_elem_of_In in Hy.
      destruct (p y) eqn:Hpy; [|reflexivity].
      assert (existsb p l = true) by (apply existsb_exists; eauto). congruence. }
    exists [], a, l. repeat split; [|exact Hl].
    inversion H as [? ? Ha|? ? Hex]; subst; [exact Ha|].
    apply Exists_exists in Hex as (y & Hy & Hpy).
    rewrite Forall_forall in Hl. rewrite (Hl y Hy) in Hpy. discriminate.
Qed.

Lemma structSelection_loop (c : config) (order : list (Z * structType)) :
  structSelection c order
  = match fold_left (fun enc entry =>
                       if isNamed c entry then Some (node (snd entry)) else enc)
                    order None with
    | None => (0, 0, Some structNotFound)
    | Some encStruct =>
        if negb (String.eqb (fieldName c) "") then fieldSelection c encStruct
        else structSpan c encStruct
    end.
Proof. reflexivity. Qed.

Lemma structSelection_none (c : config) (order : list (Z * structType)) :
  Forall (fun entry => isNamed c entry = false) order ->
  structSelection c order = (0, 0, Some structNotFound).
Proof.
  intros H. rewrite structSelection_loop.
  rewrite (fold_left_keep (isNamed c) (fun entry => node (snd entry)) order None H).
  reflexivity.
Qed.

Lemma structSelection_last (c : config) (pre : list (Z * structType))
      (entry : Z * structType) (post : list (Z * structType)) :
  isNamed c entry = true ->
  Forall (fun entry' => isNamed c entry' = false) post ->
  structSelection c (pre ++ entry :: post)
  = if negb (String.eqb (fieldName c) "")
    then fieldSelection c (node (snd entry))
    else structSpan c (node (snd entry)).
Proof.
  intros He Hpost. rewrite structSelection_loop.
  rewrite (fold_left_last (isNamed c) (fun entry => node (snd entry))
             pre entry post None He Hpost).
  reflexivity.
Qed.

Lemma names_loop (c : config) (f : ast.Field) (enc : option ast.Field) :
  fold_left
    (fun enc field =>
       if String.eqb (ast.Name field) (fieldName c) then Some f else enc)
    (ast.Field_Names f) enc
  = if declares c f then Some f else enc.
Proof.
  unfold declares. revert enc.
  induction (ast.Field_Names f) as [|n names IH]; intros enc; simpl;
    [reflexivity|].
  rewrite IH. destruct (String.eqb (ast.Name n) (fieldName c)); simpl;
    [|reflexivity].
  destruct (existsb _ names); reflexivity.
Qed.

Lemma fields_loop (c : config) (fields : list ast.Field) (init : option ast.Field) :
  fold_left
    (fun enc f =>
       fold_left
         (fun enc field =>
            if String.eqb (ast.Name field) (fieldName c) then Some f else enc)
         (ast.Field_Names f) enc)
    fields init
  = fold_left (fun enc f => if declares c f then Some f else enc) fields init.
Proof.
  revert init. induction fields as [|f fields IH]; intros init; simpl;
    [reflexivity|]. rewrite names_loop. apply IH.
Qed.

Lemma fieldSelection_none (c : config) (st : ast.StructTypeNode) :
  Forall (fun f => declares c f = false) (ast.List (ast.Fields st)) ->
  fieldSelection c st = (0, 0, Some (fieldNotFound c)).
Proof.
  intros H. unfold fieldSelection. rewrite fields_loop.
  rewrite (fold_left_keep (declares c) (fun f => f) _ None H). reflexivity.
Qed.

Lemma fieldSelection_last (c : config) (st : ast.StructTypeNode)
      (pre : list ast.Field) (f : ast.Field) (post : list ast.Field) :
  ast.List (ast.Fields st) = pre ++ f :: post ->
  declares c f = true ->
  Forall (fun f' => declares c f' = false) post ->
  fieldSelection c st = fieldSpan c f.
Proof.
  intros Hfields Hf Hpost. unfold fieldSelection. rewrite fields_loop, Hfields.
  rewrite (fold_left_last (declares c) (fun f => f) pre f post None Hf Hpost).
  reflexivity.
Qed.

(** What a range over the collected structs can visit. *)
Lemma rangeOrder_lookup {V} (m : gmap Z V) (order : list (Z * V)) (k : Z) (v : V) :
  rangeOrder m order -> (k, v) ∈ order <-> m !! k = Some v.
Proof.
  unfold rangeOrder. intros H. rewrite H. apply elem_of_map_to_list.
Qed.

Lemma rangeOrder_NoDup {V} (m : gmap Z V) (order : list (Z * V)) :
  rangeOrder m order -> NoDup order.
Proof.
  unfold rangeOrder. intros H. rewrite H. apply NoDup_map_to_list.
Qed.

(** Where one collected struct alone goes by the name, every range
    ends on it. *)
Lemma rangeOrder_only (c : config) (m : gmap Z structType)
      (order : list (Z * structType)) (k : Z) (st : structType) :
  rangeOrder m order ->
  m !! k = Some st ->
  name st = structName c ->
  (forall k' st', m !! k' = Some st' -> name st' = structName c -> k' = k) ->
  exists pre post,
    order = pre ++ (k, st) :: post
    /\ Forall (fun entry => isNamed c entry = false) post.
Proof.
  intros Horder Hk Hname Hone.
  pose proof (proj2 (rangeOrder_lookup m order k st Horder) Hk) as Hin.
  apply list_elem_of_split in Hin as (pre & post & ->).
  exists pre, post. split; [reflexivity|].
  apply Forall_forall. intros [k' st'] Hin'.
  destruct (isNamed c (k', st')) eqn:E; [exfalso|reflexivity].
  unfold isNamed in E. simpl in E. apply String.eqb_eq in E.
  assert ((k', st') ∈ pre ++ (k, st) :: post) as Hin''
      by (apply elem_of_app; right; right; exact Hin').
  apply (rangeOrder_lookup m _ k' st' Horder) in Hin''.
  pose proof (Hone k' st' Hin'' E) as ->.
  assert (st' = st) as -> by congruence.
  apply rangeOrder_NoDup in Horder. apply NoDup_app in Horder as (_ & _ & Hnd).
  apply NoDup_cons in Hnd as [Hnotin _]. contradiction.
Qed.

(** The position after a byte that ends no line is on the line of the
    byte. *)
Lemma searchInts_succ (a : list Z) (x : Z) :
  ~ In (x + 1) a -> token.searchInts a (x + 1) = token.searchInts a x.
Proof.
  induction a as [|y a IH]; simpl; [reflexivity|]. intros H.
  destruct (Z.leb_spec y (x + 1)), (Z.leb_spec y x); try lia.
  rewrite IH; [reflexivity|]. intros Hin. apply H. right. exact Hin.
Qed.

Lemma PositionLine_succ (s : token.FileSet) (p : token.Pos) (f : token.File) :
  p <> token.NoPos -> p + 1 <> token.NoPos ->
  token.file s p = Some f -> token.file s (p + 1) = Some f ->
  ~ In (p + 1 - token.base f) (token.lines f) ->
  token.PositionLine s (p + 1) = token.PositionLine s p.
Proof.
  intros Hp Hp1 Hf Hf1 Hline. unfold token.PositionLine. rewrite Hf, Hf1.
  destruct (Z.eqb_spec p token.NoPos); [contradiction|].
  destruct (Z.eqb_spec (p + 1) token.NoPos); [contradiction|].
  unfold token.unpackLine.
  replace (p + 1 - token.base f) with (p - token.base f + 1) in * by lia.
  rewrite (searchInts_succ _ _ Hline). reflexivity.
Qed.

(** C3, amended: where one collected struct alone goes by the struct
    name, the selection without a field name is the line of its
    [struct] keyword through the line of the position after its closing
    brace, which is the line of the brace; with a field name that a
    field of the struct declares it is the line where the last such
    field starts through the line where that field ends. *)
Theorem structSelection_span
        (c : config) (file : ast.File) (order : list (Z * structType))
        (k : Z) (st : structType) :
  rangeOrder (collectStructs file) order ->
  collectStructs file !! k = Some st ->
  name st = structName c ->
  (forall k' st', collectStructs file !! k' = Some st' ->
                  name st' = structName c -> k' = k) ->
  (fieldName c = EmptyString ->
   structSelection c order
   = (Line c (ast.Struct (node st)),
      Line c (ast.FieldList_End (ast.Fields (node st))), None)
   /\ (token.IsValid (ast.Closing (ast.Fields (node st))) = true ->
       ast.FieldList_End (ast.Fields (node st))
       = ast.Closing (ast.Fields (node st)) + 1)
   /\ forall f : token.File,
       token.file (fileSet c) (ast.Closing (ast.Fields (node st))) = Some f ->
       token.file (fileSet c) (ast.Closing (ast.Fields (node st)) + 1) = Some f ->
       0 < ast.Closing (ast.Fields (node st)) ->
       ~ In (ast.Closing (ast.Fields (node st)) + 1 - token.base f)
            (token.lines f) ->
       structSelection c order
       = (Line c (ast.Struct (node st)),
          Line c (ast.Closing (ast.Fields (node st))), None))
  /\ (fieldName c <> EmptyString ->
      forall (pre : list ast.Field) (f : ast.Field) (post : list ast.Field),
        ast.List (ast.Fields (node st)) = pre ++ f :: post ->
        declares c f = true ->
        Forall (fun f' => declares c f' = false) post ->
        structSelection c order
        = (Line c (ast.Field_Pos f), Line c (ast.Field_End f), None)).
Proof.
  intros Horder Hk Hname Hone.
  destruct (rangeOrder_only c _ order k st Horder Hk Hname Hone)
    as (pre & post & -> & Hpost).
  assert (isNamed c (k, st) = true) as Hnamed
      by (unfold isNamed; simpl; rewrite Hname; apply String.eqb_refl).
  rewrite (structSelection_last c pre (k, st) post Hnamed Hpost). simpl.
  split.
  - intros ->. simpl. split; [reflexivity|]. split.
    + intros Hvalid. unfold ast.FieldList_End. rewrite Hvalid. reflexivity.
    + intros f Hf Hf1 Hpos Hline. unfold structSpan, ast.StructType_End,
        ast.FieldList_End, token.IsValid, token.NoPos.
      destruct (Z.eqb_spec (ast.Closing (ast.Fields (node st))) 0); [lia|].
      simpl. unfold Line.
      rewrite (PositionLine_succ _ _ f); [reflexivity| | |exact Hf|exact Hf1|exact Hline];
        unfold token.NoPos; lia.
  - intros Hfield fields f fields' Hfields Hf Hpost'.
    destruct (String.eqb_spec (fieldName c) ""); [contradiction|]. simpl.
    apply (fieldSelection_last c (node st) fields f fields' Hfields Hf Hpost').
Qed.

Lemma fooFile_structs : collectStructs fooFile = {[ 24 := fooEntry ]}.
Proof. vm_compute. reflexivity. Qed.

Lemma fooFile_order : rangeOrder (collectStructs fooFile) [(24, fooEntry)].
Proof. unfold rangeOrder. vm_compute. reflexivity. Qed.

Lemma structSelection_span_witness :
  structSelection fooStructConfig [(24, fooEntry)] = (3, 6, None)
  /\ structSelection fooConfig [(24, fooEntry)] = (4, 4, None).
Proof.
  assert (forall k' st', collectStructs fooFile !! k' = Some st' -> k' = 24)
    as Hone.
  { intros k' st'. rewrite fooFile_structs. intros H.
    apply lookup_singleton_Some in H as [H _]. symmetry. exact H. }
  split.
  - destruct (structSelection_span fooStructConfig fooFile [(24, fooEntry)]
                24 fooEntry fooFile_order)
      as [Hspan _]; [rewrite fooFile_structs; reflexivity | reflexivity
                     | intros k' st' H _; exact (Hone k' st' H) |].
    destruct (Hspan eq_refl) as (_ & _ & Hbrace).
    apply (Hbrace (token.mkFile 1 55 [0; 13; 14; 32; 44; 53]));
      [reflexivity | reflexivity | reflexivity |].
    vm_compute. intuition discriminate.
  - destruct (structSelection_span fooConfig fooFile [(24, fooEntry)]
                24 fooEntry fooFile_order)
      as [_ Hfield]; [rewrite fooFile_structs; reflexivity | reflexivity
                      | intros k' st' H _; exact (Hone k' st' H) |].
    apply (Hfield ltac:(discriminate) []
             (ast.mkField [ast.mkIdent 34 "bar"]
                          (ast.IdentExpr (ast.mkIdent 38 "string")) None)
             [ast.mkField [ast.mkIdent 46 "baz"]
                          (ast.IdentExpr (ast.mkIdent 50 "int")) None]);
      [reflexivity | reflexivity | repeat constructor].
Defined.

(** C3 as stated fails where the opening brace stands on the line
    after the [struct] keyword: the span starts on the line of the
    keyword, line 3, and the brace is on line 4. *)
Lemma structSelection_span_keyword_line :
  rangeOrder (collectStructs braceFile) [(24, mkStructTypeEntry "foo" braceStruct)]
  /\ structSelection braceConfig [(24, mkStructTypeEntry "foo" braceStruct)]
     = (3, 6, None)
  /\ Line braceConfig (ast.Struct braceStruct) = 3
  /\ Line braceConfig (ast.Opening (ast.Fields braceStruct)) = 4
  /\ Line braceConfig (ast.Closing (ast.Fields braceStruct)) = 6.
Proof.
  split; [unfold rangeOrder; vm_compute; reflexivity|]. repeat split.
Qed.

Lemma findSelection_struct (c : config) (node : ast.File)
      (order : list (Z * structType)) :
  line c = EmptyString -> structName c <> EmptyString ->
  findSelection c node order = structSelection c order.
Proof.
  unfold findSelection. intros -> H. simpl.
  destruct (String.eqb_spec (structName c) ""); [contradiction | reflexivity].
Qed.

Lemma contains_app (ch : ascii) (s t : string) :
  contains ch (s ++ t) = contains ch s || contains ch t.
Proof.
  induction s as [|b s IH]; simpl; [reflexivity|].
  rewrite IH. apply orb_assoc.
Qed.

Lemma append_empty (s : string) : (s ++ "")%string = s.
Proof.
  induction s as [|b s IH]; [reflexivity|].
  change (String b (s ++ "") = String b s). rewrite IH. reflexivity.
Qed.

Lemma fieldNotFound_text (c : config) (quote : string -> string) :
  errorText quote (fmtErrorf "struct %q doesn't have field name %q"
                     [structName c; fieldName c])
  = ("struct " ++ quote (structName c) ++ " doesn't have field name "
       ++ quote (fieldName c))%string.
Proof.
  simpl. rewrite append_empty. reflexivity.
Qed.

(** The two texts differ whatever the quoted names are: one of them
    has an apostrophe. *)
Lemma notFound_texts_differ (c : config) (quote : string -> string) :
  errorText quote (errorString "struct name does not exist")
  <> errorText quote (fmtErrorf "struct %q doesn't have field name %q"
                        [structName c; fieldName c]).
Proof.
  intros E. apply (f_equal (contains "'")) in E.
  rewrite fieldNotFound_text, !contains_app in E. simpl in E.
  rewrite orb_true_r in E. discriminate.
Qed.

(** C5: a struct name that no collected struct goes by fails with the
    error that the struct does not exist; a field name that no field of
    the structs of that name declares fails with an error made of both
    names, which is another error; a run that fails so leaves the tree
    as parsed and formats nothing. *)
Theorem structSelection_not_found
        (c : config) (file : ast.File) (order : list (Z * structType)) :
  rangeOrder (collectStructs file) order ->
  ((forall k st, collectStructs file !! k = Some st -> name st <> structName c) ->
   structSelection c order = (0, 0, Some (errorString "struct name does not exist")))
  /\ (fieldName c <> EmptyString ->
      (exists k st, collectStructs file !! k = Some st /\ name st = structName c) ->
      (forall k st, collectStructs file !! k = Some st ->
                    name st = structName c ->
                    Forall (fun f => declares c f = false)
                           (ast.List (ast.Fields (node st)))) ->
      structSelection c order
      = (0, 0, Some (fmtErrorf "struct %q doesn't have field name %q"
                       [structName c; fieldName c])))
  /\ (forall quote : string -> string,
         errorText quote (fmtErrorf "struct %q doesn't have field name %q"
                            [structName c; fieldName c])
         = ("struct " ++ quote (structName c) ++ " doesn't have field name "
              ++ quote (fieldName c))%string
         /\ errorText quote (errorString "struct name does not exist")
            <> errorText quote (fmtErrorf "struct %q doesn't have field name %q"
                                  [structName c; fieldName c]))
  /\ (forall (Upper : Z -> bool) (err : error),
         validate c = None ->
         line c = EmptyString -> structName c <> EmptyString ->
         snd (structSelection c order) = Some err ->
         run Upper c file order = mkOutcome file None (Some err)).
Proof.
  intros Horder. split; [|split; [|split]].
  - intros Hnone. apply structSelection_none.
    apply Forall_forall. intros [k st] Hin.
    apply (rangeOrder_lookup _ _ k st Horder) in Hin.
    unfold isNamed. simpl. apply String.eqb_neq. exact (Hnone k st Hin).
  - intros Hfield Hsome Hfields.
    assert (Exists (fun entry => isNamed c entry = true) order) as Hex.
    { destruct Hsome as (k & st & Hk & Hname). apply Exists_exists.
      exists (k, st). split; [apply (rangeOrder_lookup _ _ k st Horder), Hk|].
      unfold isNamed. simpl. rewrite Hname. apply String.eqb_refl. }
    apply last_accepted in Hex as (pre & [k st] & post & -> & Hnamed & Hpost).
    rewrite (structSelection_last c pre (k, st) post Hnamed Hpost).
    destruct (String.eqb_spec (fieldName c) ""); [contradiction|]. simpl.
    apply fieldSelection_none, (Hfields k st).
    + apply (rangeOrder_lookup _ _ k st Horder).
      apply elem_of_app. right. left.
    + apply String.eqb_eq. exact Hnamed.
  - intros quote. split; [apply fieldNotFound_text | apply notFound_texts_differ].
  - intros Upper err Hval Hline Hstruct Herr.
    destruct (structSelection c order) as [[s e] err'] eqn:HS. simpl in Herr.
    subst err'. eapply run_selection_fails; [exact Hval|].
    rewrite (findSelection_struct c file order Hline Hstruct). exact HS.
Qed.

Lemma structSelection_not_found_witness :
  structSelection noStructConfig [(24, fooEntry)]
  = (0, 0, Some (errorString "struct name does not exist"))
  /\ structSelection noFieldConfig [(24, fooEntry)]
     = (0, 0, Some (fmtErrorf "struct %q doesn't have field name %q" ["foo"; "qux"]))
  /\ run (fun _ => false) noFieldConfig fooFile [(24, fooEntry)]
     = mkOutcome fooFile None
         (Some (fmtErrorf "struct %q doesn't have field name %q" ["foo"; "qux"])).
Proof.
  destruct (structSelection_not_found noStructConfig fooFile [(24, fooEntry)]
              fooFile_order) as (Hstruct & _).
  destruct (structSelection_not_found noFieldConfig fooFile [(24, fooEntry)]
              fooFile_order) as (_ & Hfield & _ & Hrun).
  split; [|split].
  - apply Hstruct. intros k st. rewrite fooFile_structs. intros H.
    apply lookup_singleton_Some in H as [_ <-]. discriminate.
  - apply Hfield; [discriminate | |].
    + exists 24, fooEntry. rewrite fooFile_structs. split; reflexivity.
    + intros k st. rewrite fooFile_structs. intros H _.
      apply lookup_singleton_Some in H as [_ <-]. repeat constructor.
  - apply Hrun; [reflexivity | reflexivity | discriminate | reflexivity].
Defined.

(** C8, amended: when collected structs go by the struct name, the
    selection is the span of the one that the range over them comes to
    last, one of the collected structs of that name; the order of the
    range is open, so which of several it is is not settled by the
    order of the walk. *)
Theorem structSelection_last_ranged
        (c : config) (file : ast.File) (order : list (Z * structType)) :
  rangeOrder (collectStructs file) order ->
  fieldName c = EmptyString ->
  (exists k st, collectStructs file !! k = Some st /\ name st = structName c) ->
  exists (pre : list (Z * structType)) (k : Z) (st : structType)
         (post : list (Z * structType)),
    order = pre ++ (k, st) :: post
    /\ collectStructs file !! k = Some st
    /\ name st = structName c
    /\ Forall (fun entry => name (snd entry) <> structName c) post
    /\ structSelection c order = structSpan c (node st).
Proof.
  intros Horder Hfield Hsome.
  assert (Exists (fun entry => isNamed c entry = true) order) as Hex.
  { destruct Hsome as (k & st & Hk & Hname). apply Exists_exists.
    exists (k, st). split; [apply (rangeOrder_lookup _ _ k st Horder), Hk|].
    unfold isNamed. simpl. rewrite Hname. apply String.eqb_refl. }
  apply last_accepted in Hex as (pre & [k st] & post & -> & Hnamed & Hpost).
  exists pre, k, st, post. split; [reflexivity|]. split; [|split; [|split]].
  - apply (rangeOrder_lookup _ _ k st Horder). apply elem_of_app. right. left.
  - apply String.eqb_eq. exact Hnamed.
  - eapply Forall_impl; [exact Hpost|]. intros entry H.
    apply String.eqb_neq. exact H.
  - rewrite (structSelection_last c pre (k, st) post Hnamed Hpost).
    rewrite Hfield. reflexivity.
Qed.

Lemma twoFile_declaredLast : rangeOrder (collectStructs twoFile) declaredLast.
Proof. unfold rangeOrder. vm_compute. reflexivity. Qed.

Lemma twoFile_parameterLast : rangeOrder (collectStructs twoFile) parameterLast.
Proof. unfold rangeOrder. vm_compute. constructor. Qed.

Lemma structSelection_last_ranged_witness :
  exists (pre : list (Z * structType)) (k : Z) (st : structType)
         (post : list (Z * structType)),
    declaredLast = pre ++ (k, st) :: post
    /\ collectStructs twoFile !! k = Some st
    /\ name st = "foo"
    /\ Forall (fun entry => name (snd entry) <> "foo") post
    /\ structSelection twoConfig declaredLast = structSpan twoConfig (node st).
Proof.
  apply (structSelection_last_ranged twoConfig twoFile declaredLast
           twoFile_declaredLast eq_refl).
  exists 24, (mkStructTypeEntry "foo" declaredFoo). split; reflexivity.
Defined.

(** C8 as stated fails: the walk comes to the parameter's struct last,
    and a range that ends on the declared struct selects that one; two
    ranges over the same structs give two spans. *)
Lemma structSelection_range_order :
  visited twoFile = parameterLast
  /\ rangeOrder (collectStructs twoFile) declaredLast
  /\ rangeOrder (collectStructs twoFile) parameterLast
  /\ structSelection twoConfig declaredLast = (3, 5, None)
  /\ structSelection twoConfig parameterLast = (7, 7, None).
Proof.
  split; [vm_compute; reflexivity|].
  split; [exact twoFile_declaredLast|].
  split; [exact twoFile_parameterLast|].
  split; reflexivity.
Qed.

(** * The field a field selection finds *)

Lemma fold_left_found {A B} (p : A -> bool) (g : A -> B) (l : list A)
      (init : option B) (v : B) :
  fold_left (fun enc y => if p y then Some (g y) else enc) l init = Some v ->
  init = Some v \/ exists y, In y l /\ p y = true /\ v = g y.
Proof.
  revert init. induction l as [|x l IH]; intros init; simpl.
  - auto.
  - intros H. apply IH in H. destruct H as [H|(y & Hy & Hp & Hv)].
    + destruct (p x) eqn:Hx.
      * right. exists x. split; [left; reflexivity|]. split; [exact Hx|].
        congruence.
      * left. exact H.
    + right. exists y. split; [right; exact Hy|]. auto.
Qed.

Lemma rewriteFuncField_inSpan (Upper : Z -> bool) (c : config) (start end_ : Z)
      (f : ast.Field) :
  inSpan c start end_ f = true ->
  rewriteFuncField Upper c start end_ f = rewrittenInSpan Upper c f.
Proof.
  intros Hin. rewrite rewriteFuncField_selected. unfold selected, rewrittenInSpan.
  rewrite Hin. reflexivity.
Qed.

(** X9: a field selection that succeeds starts on the line where a
    field of the struct that declares the field name starts.  Unless
    the span ends before it starts, that field passes the line test of
    [rewrite] under the span, so the round of the loop replaces its type
    exactly when it has a representative name and is spelled [from];
    under a span that ends before it starts the round replaces
    nothing. *)
Theorem fieldSelection_covers
        (Upper : Z -> bool) (c : config) (st : ast.StructTypeNode)
        (start end_ : Z) :
  fieldSelection c st = (start, end_, None) ->
  exists f : ast.Field,
    In f (ast.List (ast.Fields st))
    /\ declares c f = true
    /\ Line c (ast.Field_Pos f) = start
    /\ (start <= end_ ->
        inSpan c start end_ f = true
        /\ rewriteFuncField Upper c start end_ f = rewrittenInSpan Upper c f)
    /\ (end_ < start -> rewriteFuncField Upper c start end_ f = None).
Proof.
  unfold fieldSelection. rewrite fields_loop.
  destruct (fold_left _ _ None) as [enc|] eqn:Hfold; [|discriminate].
  apply fold_left_found in Hfold.
  destruct Hfold as [Hfold|(f & Hin & Hdecl & Henc)]; [discriminate|].
  subst enc. intros [= <- <-]. exists f.
  split; [exact Hin|]. split; [exact Hdecl|]. split; [reflexivity|].
  split.
  - intros Hle.
    assert (inSpan c (Line c (ast.Field_Pos f)) (Line c (ast.Field_End f)) f
            = true) as Hspan.
    { unfold inSpan. apply andb_true_intro. split; apply Z.leb_le; lia. }
    split; [exact Hspan|]. apply rewriteFuncField_inSpan. exact Hspan.
  - intros Hlt. rewrite rewriteFuncField_selected. unfold selected, inSpan.
    assert ((Line c (ast.Field_Pos f) <=? Line c (ast.Field_End f)) = false)
      as -> by (apply Z.leb_gt; exact Hlt).
    rewrite andb_false_r. reflexivity.
Qed.

Lemma fieldSelection_covers_witness :
  exists f : ast.Field,
    In f fooFields
    /\ declares fooConfig f = true
    /\ Line fooConfig (ast.Field_Pos f) = 4
    /\ (4 <= 4 ->
        inSpan fooConfig 4 4 f = true
        /\ rewriteFuncField (fun _ => false) fooConfig 4 4 f
           = rewrittenInSpan (fun _ => false) fooConfig f)
    /\ (4 < 4 -> rewriteFuncField (fun _ => false) fooConfig 4 4 f = None).
Proof.
  exact (fieldSelection_covers (fun _ => false) fooConfig
           (ast.mkStructType 24 (ast.mkFieldList 31 fooFields 54)) 4 4 eq_refl).
Defined.

(** * Struct selection when the name is not shared *)

Lemma Forall_or_Exists {A} (p : A -> bool) (l : list A) :
  Forall (fun y => p y = false) l \/ Exists (fun y => p y = true) l.
Proof.
  induction l as [|x l [IH|IH]].
  - left. constructor.
  - destruct (p x) eqn:Hx.
    + right. apply Exists_cons_hd. exact Hx.
    + left. constructor; assumption.
  - right. apply Exists_cons_tl. exact IH.
Qed.

(** X7: when at most one collected struct goes by the struct name, the
    selection is the same for every order in which the range over the
    collected structs can go, with and without a field name. *)
Theorem structSelection_unambiguous
        (c : config) (file : ast.File) (order1 order2 : list (Z * structType)) :
  rangeOrder (collectStructs file) order1 ->
  rangeOrder (collectStructs file) order2 ->
  (forall k1 st1 k2 st2,
      collectStructs file !! k1 = Some st1 ->
      collectStructs file !! k2 = Some st2 ->
      name st1 = structName c -> name st2 = structName c -> k1 = k2) ->
  structSelection c order1 = structSelection c order2.
Proof.
  intros H1 H2 Hone.
  destruct (Forall_or_Exists (isNamed c) order1) as [Hnone|Hsome].
  - rewrite (structSelection_none c order1 Hnone).
    symmetry. apply structSelection_none.
    apply List.Forall_forall. intros [k st] Hin.
    apply list_elem_of_In in Hin.
    apply (rangeOrder_lookup _ _ _ _ H2) in Hin.
    apply (rangeOrder_lookup _ _ _ _ H1) in Hin.
    apply list_elem_of_In in Hin.
    exact (proj1 (List.Forall_forall _ _) Hnone _ Hin).
  - apply last_accepted in Hsome.
    destruct Hsome as (pre & [k st] & post & Horder & Hnamed & _).
    assert (collectStructs file !! k = Some st) as Hk.
    { apply (rangeOrder_lookup _ _ _ _ H1). rewrite Horder.
      apply list_elem_of_In, in_or_app. right. left. reflexivity. }
    assert (name st = structName c) as Hname
        by (apply String.eqb_eq; exact Hnamed).
    assert (forall k' st', collectStructs file !! k' = Some st' ->
                           name st' = structName c -> k' = k) as Honly.
    { intros k' st' Hk' Hn'. exact (Hone _ _ _ _ Hk' Hk Hn' Hname). }
    destruct (rangeOrder_only c _ _ _ _ H1 Hk Hname Honly)
      as (pre1 & post1 & -> & Hpost1).
    destruct (rangeOrder_only c _ _ _ _ H2 Hk Hname Honly)
      as (pre2 & post2 & -> & Hpost2).
    rewrite (structSelection_last c pre1 (k, st) post1 Hnamed Hpost1).
    rewrite (structSelection_last c pre2 (k, st) post2 Hnamed Hpost2).
    reflexivity.
Qed.

Lemma pairFile_fooLast : rangeOrder (collectStructs pairFile) fooLast.
Proof. unfold rangeOrder. vm_compute. reflexivity. Qed.

Lemma pairFile_barLast : rangeOrder (collectStructs pairFile) barLast.
Proof. unfold rangeOrder. vm_compute. constructor. Qed.

Lemma structSelection_unambiguous_witness :
  structSelection twoConfig fooLast = structSelection twoConfig barLast.
Proof.
  apply (structSelection_unambiguous twoConfig pairFile fooLast barLast
           pairFile_fooLast pairFile_barLast).
  intros k1 st1 k2 st2 H1 H2 Hn1 Hn2.
  apply (rangeOrder_lookup _ _ _ _ pairFile_barLast) in H1.
  apply (rangeOrder_lookup _ _ _ _ pairFile_barLast) in H2.
  apply list_elem_of_In in H1. apply list_elem_of_In in H2.
  destruct H1 as [H1|[H1|[]]]; destruct H2 as [H2|[H2|[]]];
    pose proof (f_equal fst H1) as K1; pose proof (f_equal fst H2) as K2;
    pose proof (f_equal snd H1) as S1; pose proof (f_equal snd H2) as S2;
    simpl in K1, K2, S1, S2; subst; try reflexivity; discriminate.
Defined.

(** * The collected structs *)

Lemma StructExpr_entry (nm : string) (struct opening : token.Pos)
      (fields : list ast.Field) (closing : token.Pos) :
  ast.StructExpr (node (structEntry nm struct opening fields closing))
  = ast.StructType struct opening fields closing.
Proof. reflexivity. Qed.

(** The function of [collectStructs] stores the entry of the node, under
    the position of its struct type. *)
Lemma collectStructsFunc_store (n : Node) (st : structType) :
  collectedFrom n st ->
  forall m, collectStructsFunc n m = <[ast.Struct (node st) := st]> m.
Proof.
  destruct st as [nm [s [o l c]]].
  destruct n as [x|x|[x [t|]|name0 names [t|] values]|x|x|x|x|[[t|] lb elts rb|x]];
    simpl; try contradiction; intros [Hname Hderef] m; subst nm;
    unfold collectStructsFunc; simpl option_map; rewrite Hderef;
    reflexivity.
Qed.

(** A node stores an entry it is collected from, or leaves the map as
    it is. *)
Lemma collectStructsFunc_cases (n : Node) :
  (forall m, collectStructsFunc n m = m)
  \/ exists st,
      collectedFrom n st
      /\ forall m, collectStructsFunc n m = <[ast.Struct (node st) := st]> m.
Proof.
  assert (forall (nm : string) (t : ast.Expr),
             (forall struct opening fields closing,
                 deref t <> ast.StructType struct opening fields closing)
             \/ exists st, name st = nm /\ deref t = ast.StructExpr (node st))
    as Hderef.
  { intros nm t. destruct (deref t) eqn:E; try (left; intros; discriminate).
    right. eexists (structEntry nm _ _ _ _). split; reflexivity. }
  assert (forall (nm : string) (t : ast.Expr) (m : gmap Z structType),
             (forall struct opening fields closing,
                 deref t <> ast.StructType struct opening fields closing) ->
             match option_map deref (Some t) with
             | Some (ast.StructType struct opening list closing) =>
                 <[ struct := {| name := nm;
                                 node := ast.mkStructType struct
                                           (ast.mkFieldList opening list closing) |} ]> m
             | _ => m
             end = m) as Hnone.
  { intros nm t m H. simpl. destruct (deref t); try reflexivity.
    exfalso. eapply H. reflexivity. }
  destruct n as [x|x|[x [t|]|name0 names [t|] values]|x|x|x|x|[[t|] lb elts rb|x]];
    try (left; reflexivity).
  - destruct (Hderef (ast.Name x) t) as [H|(st & Hn & Hd)].
    + left. intros m. apply Hnone. exact H.
    + right. exists st. assert (collectedFrom (SpecNode (ast.TypeSpec x (Some t))) st)
        as Hc by (split; assumption).
      split; [exact Hc|]. apply collectStructsFunc_store. exact Hc.
  - destruct (Hderef (ast.Name name0) t) as [H|(st & Hn & Hd)].
    + left. intros m. apply Hnone. exact H.
    + right. exists st.
      assert (collectedFrom (SpecNode (ast.ValueSpec name0 names (Some t) values)) st)
        as Hc by (split; assumption).
      split; [exact Hc|]. apply collectStructsFunc_store. exact Hc.
  - destruct (Hderef (firstName x) (ast.Field_Type x)) as [H|(st & Hn & Hd)].
    + left. intros m. apply (Hnone (firstName x)). exact H.
    + right. exists st. assert (collectedFrom (FieldNode x) st)
        as Hc by (split; assumption).
      split; [exact Hc|]. apply collectStructsFunc_store. exact Hc.
  - destruct (Hderef EmptyString t) as [H|(st & Hn & Hd)].
    + left. intros m. apply Hnone. exact H.
    + right. exists st.
      assert (collectedFrom (CompositeLitNode (ast.CompositeLit (Some t) lb elts rb)) st)
        as Hc by (split; assumption).
      split; [exact Hc|]. apply collectStructsFunc_store. exact Hc.
Qed.

Lemma visitedNodes_cons (n : Node) (ns : list Node) :
  visitedNodes (n :: ns)
  = map_to_list (collectStructsFunc n ∅) ++ visitedNodes ns.
Proof. reflexivity. Qed.

Lemma visited_singleton (k : Z) (st : structType) :
  map_to_list (<[k := st]> (∅ : gmap Z structType)) = [(k, st)].
Proof. rewrite insert_empty. apply map_to_list_singleton. Qed.

(** What the walk has stored after the nodes [ns], from the map [m]
    on: an entry visited, or an entry of [m] whose position no visit
    has stored under. *)
Lemma collect_lookup (ns : list Node) (m : gmap Z structType)
      (k : Z) (st : structType) :
  fold_left (fun acc n => collectStructsFunc n acc) ns m !! k = Some st ->
  In (k, st) (visitedNodes ns) \/ m !! k = Some st.
Proof.
  revert m. induction ns as [|n ns IH]; intros m; simpl fold_left.
  - auto.
  - intros H. apply IH in H. rewrite visitedNodes_cons.
    destruct H as [H|H]; [left; apply in_or_app; right; exact H|].
    destruct (collectStructsFunc_cases n) as [Hn|(st0 & Hc & Hn)]; [|set (k0 := ast.Struct (node st0)) in *].
    + rewrite Hn in H. right. exact H.
    + rewrite Hn in H. apply lookup_insert_Some in H.
      destruct H as [[<- <-]|[_ H]].
      * left. apply in_or_app. left. rewrite Hn, visited_singleton.
        left. reflexivity.
      * right. exact H.
Qed.

Lemma collect_visited (ns : list Node) (m : gmap Z structType)
      (k : Z) (st : structType) :
  NoDup (map fst (visitedNodes ns)) ->
  In (k, st) (visitedNodes ns) ->
  fold_left (fun acc n => collectStructsFunc n acc) ns m !! k = Some st.
Proof.
  revert m. induction ns as [|n ns IH]; intros m Hnd Hin; [destruct Hin|].
  simpl fold_left. rewrite visitedNodes_cons in Hnd, Hin.
  destruct (collectStructsFunc_cases n) as [Hn|(st0 & Hc & Hn)]; [|set (k0 := ast.Struct (node st0)) in *].
  - rewrite Hn in Hnd, Hin. rewrite map_to_list_empty in Hnd, Hin.
    simpl in Hnd, Hin. rewrite Hn. apply IH; assumption.
  - rewrite (Hn ∅), visited_singleton in Hnd, Hin. simpl in Hnd, Hin.
    apply NoDup_cons in Hnd. destruct Hnd as [Hk0 Hnd].
    destruct Hin as [Hin|Hin].
    + injection Hin as <- <-.
      (* no later visit stores under k0 *)
      assert (forall m', m' !! k0 = Some st0 ->
                fold_left (fun acc n => collectStructsFunc n acc) ns m' !! k0
                = Some st0) as Hkeep.
      { clear IH Hnd. revert Hk0. induction ns as [|n' ns IH']; intros Hk0 m' Hm'.
        - exact Hm'.
        - simpl fold_left. rewrite visitedNodes_cons, map_app in Hk0.
          apply IH'.
          + intros Hlater. apply Hk0. apply elem_of_app. right. exact Hlater.
          + destruct (collectStructsFunc_cases n') as [Hn'|(st1 & Hc' & Hn')]; [|set (k1 := ast.Struct (node st1)) in *].
            * rewrite Hn'. exact Hm'.
            * rewrite Hn'. rewrite lookup_insert_ne; [exact Hm'|].
              intros ->. apply Hk0. apply elem_of_app. left.
              rewrite (Hn' ∅), visited_singleton. simpl. left. }
      apply Hkeep. rewrite Hn. apply lookup_insert_eq.
    + apply IH; assumption.
Qed.

Lemma visitedNodes_origin (ns : list Node) (k : Z) (st : structType) :
  In (k, st) (visitedNodes ns) ->
  exists n, In n ns /\ collectedFrom n st /\ ast.Struct (node st) = k.
Proof.
  unfold visitedNodes. intros H. apply in_flat_map in H.
  destruct H as (n & Hn & H). exists n. split; [exact Hn|].
  destruct (collectStructsFunc_cases n) as [Hnone|(st0 & Hc & Hstore)].
  - rewrite Hnone, map_to_list_empty in H. destruct H.
  - rewrite Hstore, visited_singleton in H. destruct H as [[= <- <-]|[]].
    split; [exact Hc|reflexivity].
Qed.

Lemma visitedNodes_collected (ns : list Node) (n : Node) (st : structType) :
  In n ns -> collectedFrom n st ->
  In (ast.Struct (node st), st) (visitedNodes ns).
Proof.
  intros Hn Hc. unfold visitedNodes. apply in_flat_map. exists n.
  split; [exact Hn|].
  rewrite (collectStructsFunc_store n st Hc), visited_singleton.
  left. reflexivity.
Qed.

(** X5: every struct [collectStructs] returns is stored under the
    position of its [struct] keyword, and is the struct type [deref]
    finds in the type of a type spec, a value spec, a field or a
    composite literal of the file, under the name of that node. *)
Theorem collectStructs_origin (file : ast.File) (k : Z) (st : structType) :
  collectStructs file !! k = Some st ->
  ast.Struct (node st) = k
  /\ exists n : Node, In n (walk file) /\ collectedFrom n st.
Proof.
  unfold collectStructs, Inspect. intros H. apply collect_lookup in H.
  destruct H as [H|H]; [|rewrite lookup_empty in H; discriminate].
  apply visitedNodes_origin in H. destruct H as (n & Hn & Hc & Hk).
  split; [exact Hk|]. exists n. split; assumption.
Qed.

Lemma collectStructs_origin_witness :
  ast.Struct (node fooEntry) = 24
  /\ exists n : Node, In n (walk fooFile) /\ collectedFrom n fooEntry.
Proof.
  apply (collectStructs_origin fooFile 24 fooEntry).
  rewrite fooFile_structs. apply lookup_singleton_eq.
Defined.

Lemma walk_declared (file : ast.File) (specs : list ast.Spec) (s : ast.Spec) :
  In (ast.GenDecl specs) (ast.Decls file) -> In s specs ->
  In (SpecNode s) (walk file).
Proof.
  intros Hd Hs. unfold walk. right. apply in_or_app. right.
  apply in_concat. exists (walkDecl (ast.GenDecl specs)).
  split; [apply in_map; exact Hd|].
  simpl. right. apply in_concat. exists (walkSpec s).
  split; [apply in_map; exact Hs|]. left. reflexivity.
Qed.



(** * The config and the choice of the selection *)

Lemma eqb_empty (s : string) : String.eqb s "" = true <-> s = EmptyString.
Proof. apply String.eqb_eq. Qed.

Lemma eqb_not_empty (s : string) : String.eqb s "" = false <-> s <> EmptyString.
Proof. apply String.eqb_neq. Qed.

(** X1: [validate] accepts a config exactly when a file is named and
    the locator is a line string without struct or field name, or a
    struct name without line string, or [all] without line string,
    struct name or field name. *)
Theorem validate_accepts (c : config) :
  validate c = None <->
  file c <> EmptyString
  /\ ((line c <> EmptyString /\ structName c = EmptyString
       /\ fieldName c = EmptyString)
      \/ (line c = EmptyString /\ structName c <> EmptyString)
      \/ (line c = EmptyString /\ structName c = EmptyString
          /\ fieldName c = EmptyString /\ all c = true)).
Proof.
  unfold validate.
  destruct (String.eqb (file c) "") eqn:Hf;
    destruct (String.eqb (line c) "") eqn:Hl;
    destruct (String.eqb (structName c) "") eqn:Hs;
    destruct (String.eqb (fieldName c) "") eqn:Hn;
    destruct (all c) eqn:Ha; cbn [andb negb];
    rewrite ?eqb_empty, ?eqb_not_empty in *;
    intuition (try congruence; try discriminate).
Qed.

Lemma validate_all (c : config) :
  validate c = None -> line c = EmptyString -> structName c = EmptyString ->
  all c = true.
Proof.
  unfold validate. intros Hv Hl Hs. rewrite Hl, Hs in Hv. simpl in Hv.
  destruct (String.eqb (file c) ""); [discriminate|].
  destruct (all c); [reflexivity|discriminate].
Qed.

(** The errors of the three selections. *)
Lemma lineSelection_errors (c : config) (node : ast.File) (err : error) :
  snd (lineSelection c node) = Some err ->
  (exists e, err = numError e) \/ err = wrongRange.
Proof.
  unfold lineSelection.
  destruct (strings.Split (line c) ",") as [|part0 parts] eqn:E.
  - exfalso. exact (Split_not_nil _ _ E).
  - destruct (strconv.Atoi part0) as [n [e|]].
    + intros [= <-]. left. eauto.
    + destruct parts as [|part1 [|part2 parts]].
      * destruct (n >? n); [intros [= <-]; right; reflexivity|discriminate].
      * destruct (strconv.Atoi part1) as [m [e|]].
        -- intros [= <-]. left. eauto.
        -- destruct (n >? m); [intros [= <-]; right; reflexivity|discriminate].
      * destruct (n >? n); [intros [= <-]; right; reflexivity|discriminate].
Qed.

Lemma fieldSelection_errors (c : config) (st : ast.StructTypeNode) (err : error) :
  snd (fieldSelection c st) = Some err -> err = fieldNotFound c.
Proof.
  unfold fieldSelection.
  destruct (fold_left _ _ _); [discriminate|]. intros [= <-]. reflexivity.
Qed.

Lemma structSelection_errors (c : config) (order : list (Z * structType))
      (err : error) :
  snd (structSelection c order) = Some err ->
  err = structNotFound \/ err = fieldNotFound c.
Proof.
  rewrite structSelection_loop.
  destruct (fold_left _ _ _) as [enc|].
  - destruct (negb _).
    + intros H. right. exact (fieldSelection_errors _ _ _ H).
    + discriminate.
  - intros [= <-]. left. reflexivity.
Qed.

Lemma allSelection_errors (c : config) (node : ast.File) (err : error) :
  snd (allSelection c node) = Some err ->
  err = runtimePanic "nil pointer dereference".
Proof.
  unfold allSelection. destruct (token.FileOf _ _); [discriminate|].
  intros [= <-]. reflexivity.
Qed.

Lemma findSelection_all (c : config) (node : ast.File)
      (order : list (Z * structType)) :
  line c = EmptyString -> structName c = EmptyString -> all c = true ->
  findSelection c node order = allSelection c node.
Proof.
  intros Hl Hs Ha. unfold findSelection. rewrite Hl, Hs, Ha. reflexivity.
Qed.

(** X2: for a config [validate] accepts, [findSelection] is the line
    selection when there is a line string, else the struct selection
    when there is a struct name, else the selection of all, whatever
    [all] is beside a line string or struct name; its own error, that
    no locator is passed, does not occur. *)
Theorem findSelection_after_validate
        (c : config) (node : ast.File) (order : list (Z * structType)) :
  validate c = None ->
  (line c <> EmptyString ->
   findSelection c node order = lineSelection c node)
  /\ (line c = EmptyString -> structName c <> EmptyString ->
      findSelection c node order = structSelection c order)
  /\ (line c = EmptyString -> structName c = EmptyString ->
      findSelection c node order = allSelection c node)
  /\ snd (findSelection c node order)
     <> Some (errorString "-line, -struct or -all is not passed").
Proof.
  intros Hv.
  assert (line c = EmptyString -> structName c = EmptyString ->
          findSelection c node order = allSelection c node) as Hall.
  { intros Hl Hs. apply findSelection_all; try assumption.
    apply validate_all; assumption. }
  split; [apply findSelection_line|].
  split; [apply findSelection_struct|].
  split; [exact Hall|].
  intros Herr.
  destruct (String.eqb (line c) "") eqn:Hl.
  - apply eqb_empty in Hl.
    destruct (String.eqb (structName c) "") eqn:Hs.
    + apply eqb_empty in Hs. rewrite (Hall Hl Hs) in Herr.
      apply allSelection_errors in Herr. discriminate.
    + apply eqb_not_empty in Hs.
      rewrite (findSelection_struct c node order Hl Hs) in Herr.
      apply structSelection_errors in Herr.
      destruct Herr as [Herr|Herr]; discriminate.
  - apply eqb_not_empty in Hl.
    rewrite (findSelection_line c node order Hl) in Herr.
    apply lineSelection_errors in Herr.
    destruct Herr as [[e Herr]|Herr]; discriminate.
Qed.

Lemma findSelection_after_validate_witness :
  findSelection fooAllConfig fooFile [(24, fooEntry)]
  = allSelection fooAllConfig fooFile.
Proof.
  destruct (findSelection_after_validate fooAllConfig fooFile [(24, fooEntry)]
              eq_refl) as (_ & _ & H & _).
  apply H; reflexivity.
Defined.

(** * The run *)

(** X16: a run that fails has failed in [validate] or in the selection:
    the tree is as parsed and nothing is handed to [format]; a run that
    does not fail hands [format] the tree rewritten over the span the
    selection has found. *)
Theorem run_outcome
        (Upper : Z -> bool) (c : config) (node : ast.File)
        (order : list (Z * structType)) :
  (forall err : error,
      failure (run Upper c node order) = Some err ->
      tree (run Upper c node order) = node
      /\ formatted (run Upper c node order) = None
      /\ (validate c = Some err
          \/ (validate c = None
              /\ snd (findSelection c node order) = Some err)))
  /\ (failure (run Upper c node order) = None ->
      validate c = None
      /\ exists start end_ : Z,
          findSelection c node order = (start, end_, None)
          /\ tree (run Upper c node order)
             = rewriteFile Upper c start end_ node
          /\ formatted (run Upper c node order)
             = Some (rewriteFile Upper c start end_ node)).
Proof.
  unfold run. destruct (validate c) as [e|] eqn:Hv.
  - split.
    + simpl. intros err [= <-]. auto.
    + simpl. discriminate.
  - destruct (findSelection c node order) as [[start end_] [e|]] eqn:Hsel.
    + split.
      * simpl. intros err [= <-]. auto.
      * simpl. discriminate.
    + simpl. split; [discriminate|]. intros _. split; [reflexivity|].
      exists start, end_. auto.
Qed.

Lemma run_outcome_witness :
  validate fooConfig = None
  /\ exists start end_ : Z,
      findSelection fooConfig fooFile [(24, fooEntry)] = (start, end_, None)
      /\ tree (run (fun _ => false) fooConfig fooFile [(24, fooEntry)])
         = rewriteFile (fun _ => false) fooConfig start end_ fooFile
      /\ formatted (run (fun _ => false) fooConfig fooFile [(24, fooEntry)])
         = Some (rewriteFile (fun _ => false) fooConfig start end_ fooFile).
Proof.
  apply (proj2 (run_outcome (fun _ => false) fooConfig fooFile [(24, fooEntry)])).
  reflexivity.
Defined.

(** * The line string, in full *)

(** X3: the line selection succeeds exactly when the first token of
    the line string is a decimal numeral within [int] and, if there are
    exactly two tokens, the second is one as well and not below the
    first; the span is then the first number through the second, or
    through the first.  The selection never indexes past the tokens. *)
Theorem lineSelection_succeeds (c : config) (node : ast.File) (start end_ : Z) :
  (lineSelection c node = (start, end_, None) <->
   exists (part0 : string) (parts : list string),
     lineTokens c = part0 :: parts
     /\ isDecimal part0 = true /\ inInt (decimalValue part0)
     /\ start = decimalValue part0
     /\ match parts with
        | [part1] =>
            isDecimal part1 = true /\ inInt (decimalValue part1)
            /\ end_ = decimalValue part1 /\ start <= end_
        | _ => end_ = start
        end)
  /\ forall s : string, snd (lineSelection c node) <> Some (runtimePanic s).
Proof.
  split; [|intros s; apply lineSelection_no_panic].
  unfold lineTokens, lineSelection.
  destruct (strings.Split (line c) ",") as [|part0 parts] eqn:E.
  { exfalso. exact (Split_not_nil _ _ E). }
  split.
  - intros H. exists part0, parts. split; [reflexivity|].
    destruct (strconv.Atoi part0) as [n [e|]] eqn:E0; [discriminate|].
    apply Atoi_spec in E0. destruct E0 as (Hd0 & Hi0 & Hn0).
    destruct parts as [|part1 [|part2 parts]].
    + destruct (n >? n); [discriminate|]. injection H as <- <-. auto.
    + destruct (strconv.Atoi part1) as [m [e|]] eqn:E1; [discriminate|].
      apply Atoi_spec in E1. destruct E1 as (Hd1 & Hi1 & Hm1).
      destruct (n >? m) eqn:Hgt; [discriminate|]. injection H as <- <-.
      rewrite Z.gtb_ltb in Hgt. apply Z.ltb_ge in Hgt. auto 10.
    + destruct (n >? n); [discriminate|]. injection H as <- <-. auto.
  - intros (p0 & ps & [= <- <-] & Hd0 & Hi0 & Hs & Hrest).
    assert (strconv.Atoi part0 = (start, None)) as ->
        by (apply Atoi_spec; auto).
    assert ((start >? start) = false) as Hrefl
        by (rewrite Z.gtb_ltb; apply Z.ltb_irrefl).
    destruct parts as [|part1 [|part2 parts]].
    + rewrite Hrest, Hrefl. reflexivity.
    + destruct Hrest as (Hd1 & Hi1 & He & Hle).
      assert (strconv.Atoi part1 = (end_, None)) as ->
          by (apply Atoi_spec; auto).
      assert ((start >? end_) = false) as ->
          by (rewrite Z.gtb_ltb; apply Z.ltb_ge; exact Hle).
      reflexivity.
    + rewrite Hrest, Hrefl. reflexivity.
Qed.

(** * A span that ends before it starts *)

(** X13: under a span that ends before it starts no field passes the
    line test: [rewrite] returns the tree as it was, with no error, and
    keeps the span in the config. *)
Theorem rewrite_empty_span
        (Upper : Z -> bool) (c : config) (node : ast.File) (start end_ : Z) :
  end_ < start ->
  rewrite Upper c node start end_ = (setSpan c start end_, node, None).
Proof.
  intros Hlt. unfold rewrite.
  rewrite rewriteFile_none_selected; [reflexivity|].
  apply List.Forall_forall. intros f _. unfold selected, inSpan.
  destruct (start <=? Line c (ast.Field_Pos f)) eqn:H1; [|reflexivity].
  destruct (Line c (ast.Field_Pos f) <=? end_) eqn:H2; [|reflexivity].
  apply Z.leb_le in H1. apply Z.leb_le in H2. lia.
Qed.

Lemma rewrite_empty_span_witness :
  rewrite (fun _ => false) fooAllConfig fooFile 5 4
  = (setSpan fooAllConfig 5 4, fooFile, None).
Proof.
  apply (rewrite_empty_span (fun _ => false) fooAllConfig fooFile 5 4). lia.
Defined.

(** * Embedded fields *)

(** X11: the loop of [rewrite] replaces the type of an embedded field
    exactly when unexported fields are not skipped, the field is in the
    span and its type is a plain identifier whose name is [from], a
    text that is not empty; an embedded pointer or qualified type is
    never replaced. *)
Theorem embedded_field_rewrite
        (Upper : Z -> bool) (c : config) (start end_ : Z) (f : ast.Field) :
  ast.Field_Names f = [] ->
  (rewriteFuncField Upper c start end_ f = Some (toIdent c) <->
   skipUnexportedFields c = false
   /\ inSpan c start end_ f = true
   /\ from c <> EmptyString
   /\ exists ident : ast.Ident,
       ast.Field_Type f = ast.IdentExpr ident /\ ast.Name ident = from c)
  /\ (rewriteFuncField Upper c start end_ f <> Some (toIdent c) ->
      rewriteFuncField Upper c start end_ f = None).
Proof.
  intros Hnames. split.
  - unfold rewriteFuncField, fieldNameOf, inSpan. rewrite Hnames. simpl List.find.
    destruct ((start <=? Line c (ast.Field_Pos f))
              && (Line c (ast.Field_Pos f) <=? end_)) eqn:Hspan; simpl negb;
      cbv iota.
    2:{ split; [discriminate|]. intros (_ & H & _). discriminate. }
    destruct (ast.Field_Type f) as [ident| | | | | |] eqn:Htype;
      try (split; [discriminate|]; intros (_ & _ & _ & ident & H & _);
           discriminate).
    destruct (skipUnexportedFields c) eqn:Hskip; simpl negb; cbv iota.
    { simpl. split; [discriminate|]. intros (H & _). discriminate. }
    unfold types.ExprString. simpl types.WriteExpr.
    destruct (String.eqb (ast.Name ident) "") eqn:Hempty.
    { split; [discriminate|]. intros (_ & _ & Hfrom & ident' & [= <-] & Hname).
      apply String.eqb_eq in Hempty. congruence. }
    destruct (String.eqb (ast.Name ident) (from c)) eqn:Hfrom.
    + apply String.eqb_eq in Hfrom. apply String.eqb_neq in Hempty.
      split; [|reflexivity]. intros _.
      split; [reflexivity|]. split; [reflexivity|].
      split; [congruence|]. exists ident. auto.
    + split; [discriminate|]. intros (_ & _ & _ & ident' & [= <-] & Hname).
      apply String.eqb_neq in Hfrom. contradiction.
  - rewrite rewriteFuncField_selected.
    destruct (selected Upper c start end_ f); [intros H; contradiction|reflexivity].
Qed.

Lemma embedded_field_rewrite_witness :
  rewriteFuncField (fun _ => false) fooAllConfig 1 6 embeddedField
  = Some (ast.IdentExpr (ast.NewIdent "[]byte")).
Proof.
  apply (proj1 (embedded_field_rewrite (fun _ => false) fooAllConfig 1 6
                  embeddedField eq_refl)).
  split; [reflexivity|]. split; [reflexivity|]. split; [discriminate|].
  exists (ast.mkIdent 34 "string"). split; reflexivity.
Defined.

(** * deref *)

Lemma append_assoc (s t u : string) :
  ((s ++ t) ++ u)%string = (s ++ t ++ u)%string.
Proof.
  induction s as [|b s IH]; [reflexivity|].
  change (String b ((s ++ t) ++ u) = String b (s ++ t ++ u)).
  rewrite IH. reflexivity.
Qed.

(** X4: [deref] strips every leading "*" and array or slice bracket:
    what it returns is neither a pointer nor an array type, a second
    [deref] changes nothing, and the spelling of the expression ends
    with the spelling of what [deref] returns. *)
Theorem deref_strips (x : ast.Expr) :
  (forall star y, deref x <> ast.StarExpr star y)
  /\ (forall lbrack len elt, deref x <> ast.ArrayType lbrack len elt)
  /\ deref (deref x) = deref x
  /\ exists prefix : string,
      types.ExprString x = (prefix ++ types.ExprString (deref x))%string.
Proof.
  induction x using ast.Expr_induction;
    try (split; [discriminate|]; split; [discriminate|];
         split; [reflexivity|]; exists EmptyString; reflexivity).
  - destruct IHx as (H1 & H2 & H3 & p & H4).
    split; [exact H1|]. split; [exact H2|]. split; [exact H3|].
    exists ("*" ++ p)%string. unfold types.ExprString in *. simpl.
    rewrite H4. reflexivity.
  - destruct IHx as (H1 & H2 & H3 & p & H4).
    split; [exact H1|]. split; [exact H2|]. split; [exact H3|].
    exists ("[" ++ match len with
                   | Some l => types.WriteExpr l
                   | None => ""
                   end ++ "]" ++ p)%string.
    unfold types.ExprString in *. simpl deref. simpl types.WriteExpr.
    rewrite H4, !append_assoc. reflexivity.
Qed.

(** * Two runs over two spans *)

Section Spans.
Variable Upper : Z -> bool.
Variable c : config.
Variables a b a' b' u1 u2 : Z.
Hypothesis Hunion : spansUnion a b a' b' u1 u2.
Hypothesis Hstable : from c = to c \/ hasInfix "struct{" (from c) = false.

Lemma selected_union (f : ast.Field) :
  selected Upper c u1 u2 f
  = selected Upper c a b f || selected Upper c a' b' f.
Proof.
  unfold selected, inSpan. rewrite (Hunion (Line c (ast.Field_Pos f))).
  destruct ((a <=? Line c (ast.Field_Pos f)) && (Line c (ast.Field_Pos f) <=? b));
    destruct ((a' <=? Line c (ast.Field_Pos f))
              && (Line c (ast.Field_Pos f) <=? b'));
    destruct (named Upper c f); destruct (spelledFrom c f); reflexivity.
Qed.

(** The walk of the first run through the type of a field it has not
    selected leaves the second run's test of that field as it was. *)
Lemma selected_after (f : ast.Field) :
  selected Upper c a' b'
    (ast.mkField (ast.Field_Names f)
                 (rewriteExpr Upper c a b (ast.Field_Type f))
                 (ast.Field_Tag f))
  = selected Upper c a' b' f.
Proof.
  destruct f as [names type tag]. simpl.
  destruct (hasStruct type) eqn:Hs.
  2:{ rewrite (rewriteExpr_no_struct Upper c a b type Hs). reflexivity. }
  unfold selected. f_equal; [f_equal|].
  - unfold inSpan, ast.Field_Pos. simpl.
    destruct names; [rewrite Expr_Pos_rewriteExpr|]; reflexivity.
  - apply named_walked.
  - unfold spelledFrom. simpl. destruct Hstable as [Hsame|Hplain].
    + rewrite (ExprString_rewriteExpr Upper c a b type Hsame). reflexivity.
    + pose proof (hasStruct_spelling type Hs) as H1.
      rewrite <- (hasStruct_rewriteExpr Upper c a b type) in Hs.
      pose proof (hasStruct_spelling _ Hs) as H2.
      destruct (String.eqb_spec
                  (types.ExprString (rewriteExpr Upper c a b type)) (from c))
        as [E|_]; [rewrite E in H2; congruence|].
      destruct (String.eqb_spec (types.ExprString type) (from c))
        as [E|_]; [rewrite E in H1; congruence|].
      reflexivity.
Qed.

Lemma rewriteStructField_spans (f : ast.Field) :
  rewriteExpr Upper c a' b' (rewriteExpr Upper c a b (ast.Field_Type f))
  = rewriteExpr Upper c u1 u2 (ast.Field_Type f) ->
  rewriteStructField Upper c a' b' (rewriteStructField Upper c a b f)
  = rewriteStructField Upper c u1 u2 f.
Proof.
  intros IH. unfold rewriteStructField at 2 3. rewrite selected_union.
  destruct (selected Upper c a b f) eqn:Hfirst.
  - simpl. unfold rewriteStructField.
    destruct (selected Upper c a' b' (ast.mkField _ _ _)); reflexivity.
  - simpl. unfold rewriteStructField. rewrite selected_after. simpl.
    destruct (selected Upper c a' b' f); [reflexivity|].
    rewrite IH. reflexivity.
Qed.

Lemma rewriteExpr_spans (e : ast.Expr) :
  rewriteExpr Upper c a' b' (rewriteExpr Upper c a b e)
  = rewriteExpr Upper c u1 u2 e.
Proof.
  induction e as [x|x|star x IH|lbrack len elt IHlen IHelt|x sel IH
                  |map key value IHkey IHvalue|struct opening fields closing IH]
    using ast.Expr_induction; try reflexivity.
  - simpl. rewrite IH. reflexivity.
  - simpl. rewrite IHelt. destruct len; simpl; [rewrite IHlen|]; reflexivity.
  - simpl. rewrite IH. reflexivity.
  - simpl. rewrite IHkey, IHvalue. reflexivity.
  - rewrite !rewriteExpr_struct. f_equal. rewrite map_map.
    apply map_ext_Forall. eapply Forall_impl; [exact IH|].
    intros f. apply rewriteStructField_spans.
Qed.

End Spans.

(** X14: when [from] and [to] are the same text, or [from] does not
    hold the text "struct{", a rewrite over one span followed by a
    rewrite over a second span on the tree the first has left gives the
    tree of one rewrite over a span whose lines are those of the two
    spans together. *)
Theorem rewrite_spans_union
        (Upper : Z -> bool) (c : config) (node : ast.File)
        (a b a' b' u1 u2 : Z) :
  spansUnion a b a' b' u1 u2 ->
  from c = to c \/ hasInfix "struct{" (from c) = false ->
  forall (c1 : config) (node1 : ast.File),
    rewrite Upper c node a b = (c1, node1, None) ->
    rewrite Upper c1 node1 a' b'
    = (setSpan c a' b', rewriteFile Upper c u1 u2 node, None).
Proof.
  intros Hunion Hstable c1 node1 [= <- <-]. unfold rewrite. f_equal. f_equal.
  unfold rewriteFile.
  rewrite (inspectFile_ext _ (rewriteExpr Upper c a' b'));
    [|intros e; apply rewriteExpr_setSpan].
  apply inspectFile_composed. intros e.
  apply rewriteExpr_spans; assumption.
Qed.

Lemma rewrite_spans_union_witness :
  rewrite (fun _ => false) (setSpan fooIntConfig 4 4)
          (rewriteFile (fun _ => false) fooIntConfig 4 4 fooFile) 5 5
  = (setSpan fooIntConfig 5 5,
     rewriteFile (fun _ => false) fooIntConfig 4 5 fooFile, None).
Proof.
  apply (rewrite_spans_union (fun _ => false) fooIntConfig fooFile 4 4 5 5 4 5).
  - intros l. apply eq_iff_eq_true.
    rewrite orb_true_iff, !andb_true_iff, !Z.leb_le. lia.
  - right. reflexivity.
  - reflexivity.
Defined.

(** * The same text for [from] and [to] *)

(** X15: with the same text for [from] and [to] the rewrite keeps the
    spelling of every type expression of the file. *)
Theorem rewrite_same_spelling
        (Upper : Z -> bool) (c : config) (node : ast.File) (start end_ : Z) :
  from c = to c ->
  map types.ExprString (typeExprs (rewriteFile Upper c start end_ node))
  = map types.ExprString (typeExprs node).
Proof.
  intros Hsame. unfold rewriteFile. rewrite typeExprs_inspectFile, map_map.
  apply map_ext. intros e. apply ExprString_rewriteExpr. exact Hsame.
Qed.

Lemma rewrite_same_spelling_witness :
  map types.ExprString
      (typeExprs (rewriteFile (fun _ => false) sameConfig 1 6 fooFile))
  = map types.ExprString (typeExprs fooFile).
Proof.
  apply (rewrite_same_spelling (fun _ => false) sameConfig fooFile 1 6).
  reflexivity.
Defined.

(** * Skipping unexported fields *)

(** X12: a field whose first name, if it has names, is not empty and
    whose type the loop of [rewrite] replaces when unexported fields
    are skipped has its type replaced by the same type when they are
    not skipped. *)
Theorem skip_unexported_narrows
        (Upper : Z -> bool) (c : config) (start end_ : Z) (f : ast.Field)
        (type : ast.Expr) :
  (forall (n : ast.Ident) (rest : list ast.Ident),
      ast.Field_Names f = n :: rest -> ast.Name n <> EmptyString) ->
  rewriteFuncField Upper (withSkip c true) start end_ f = Some type ->
  rewriteFuncField Upper (withSkip c false) start end_ f = Some type.
Proof.
  intros Hfirst. rewrite !rewriteFuncField_selected.
  destruct (selected Upper (withSkip c true) start end_ f) eqn:Hsel;
    [|discriminate].
  assert (selected Upper (withSkip c false) start end_ f = true) as ->;
    [|trivial].
  unfold selected in *.
  apply andb_true_iff in Hsel as [Hsel Hspelled].
  apply andb_true_iff in Hsel as [Hspan Hnamed].
  change (inSpan (withSkip c false) start end_ f) with (inSpan c start end_ f).
  change (inSpan (withSkip c true) start end_ f) with (inSpan c start end_ f)
    in Hspan.
  change (spelledFrom (withSkip c false) f) with (spelledFrom c f).
  change (spelledFrom (withSkip c true) f) with (spelledFrom c f) in Hspelled.
  rewrite Hspan, Hspelled, andb_true_r. simpl.
  unfold named, fieldNameOf in *. simpl skipUnexportedFields in *.
  destruct (ast.Field_Names f) as [|n rest] eqn:Hnames.
  - simpl in Hnamed. destruct (ast.Field_Type f); discriminate.
  - simpl. apply negb_true_iff. apply String.eqb_neq.
    exact (Hfirst n rest eq_refl).
Qed.

Lemma skip_unexported_narrows_witness :
  rewriteFuncField (fun _ => false) (withSkip (groupConfig true) false) 4 4
                   groupField
  = Some (ast.IdentExpr (ast.NewIdent "int64")).
Proof.
  apply (skip_unexported_narrows (fun _ => false) (groupConfig true) 4 4
           groupField).
  - intros n rest [= <- _]. discriminate.
  - reflexivity.
Defined.

(** * Types outside struct types *)

(** X17: the rewrite changes nothing in a type expression that holds no
    struct type, however it is spelled, and a declaration none of whose
    type expressions holds a struct type is in the rewritten file as
    it was: the type of a type definition, of a variable or of a
    parameter is not rewritten, nor is a part of a pointer, slice, map
    or qualified type. *)
Theorem rewrite_struct_free
        (Upper : Z -> bool) (c : config) (node : ast.File) (start end_ : Z) :
  (forall e : ast.Expr,
      hasStruct e = false -> rewriteExpr Upper c start end_ e = e)
  /\ (forall (i : nat) (d : ast.Decl),
         ast.Decls node !! i = Some d ->
         Forall (fun e => hasStruct e = false) (typeExprsDecl d) ->
         ast.Decls (rewriteFile Upper c start end_ node) !! i = Some d).
Proof.
  split; [intros e; apply rewriteExpr_no_struct|].
  intros i d Hi Hfree. unfold rewriteFile, inspectFile. simpl.
  rewrite list_lookup_fmap, Hi. simpl. f_equal.
  apply inspectDecl_fixed. eapply Forall_impl; [exact Hfree|].
  intros e He. apply rewriteExpr_no_struct. exact He.
Qed.

Lemma rewrite_struct_free_witness :
  rewriteExpr (fun _ => false) fooAllConfig 1 6
    (ast.MapType 60 (ast.IdentExpr (ast.mkIdent 64 "string"))
                 (ast.IdentExpr (ast.mkIdent 71 "string")))
  = ast.MapType 60 (ast.IdentExpr (ast.mkIdent 64 "string"))
                (ast.IdentExpr (ast.mkIdent 71 "string")).
Proof.
  apply (proj1 (rewrite_struct_free (fun _ => false) fooAllConfig fooFile 1 6)).
  reflexivity.
Defined.
